(** * quick-stickers: the image router ([src/backend/routers/image.ts])

    A shallow embedding of the job tracker created by [createImageRouter]:
    the credit counter, the three job collections, the five HTTP handlers,
    the [setTimeout] callback of a queued job and the Gemini adapter
    [generateGeminiImage], followed by the properties of the specification
    that are stated about them.

    Modelling conventions.
    - [credits] is a JavaScript number that only ever holds integers; it is
      modelled as an unbounded [Z] (exact below 2^53, which is the range in
      which the counter lives in practice).
    - [completedJobs] is a plain object used as a dictionary: its own
      properties are a [gmap]; a property read additionally falls back on
      [Object.prototype], as it does in JavaScript.
    - The outcome of everything outside the process (the random source behind
      [generateJobId], the Gemini service, the background removal library,
      the moment a timer elapses) is an input of the model. *)

From stdpp Require Import base numbers list strings gmap.

Open Scope Z_scope.
Open Scope string_scope.
Open Scope list_scope.

(** ** Results of calls that may throw *)

Inductive Result (A : Type) : Type :=
| Returns (a : A)
| Throws (message : string).
Arguments Returns {A} a.
Arguments Throws {A} message.

(** ** The image response ([interface ImageResponse]) *)

Record Representation := {
  width : Z;
  height : Z;
  url : string
}.

Record ImageResponse := {
  fullsize : Representation;
  thumbnail : Representation;
  label : string
}.

(** ** The Gemini adapter *)

Module Gemini.

(** The part of the service's response that [generateGeminiImage] reads.
    Optional members are [option]s; a text part has no [inlineData]. *)
Record InlineData := { data : option string }.
Record Part := { inlineData : option InlineData }.
Record Content := { parts : option (list Part) }.
Record Candidate := { content : option Content }.
Record GenerateContentResponse := { candidates : option (list Candidate) }.

(** One call of the adapter talks to the outside twice: the request to the
    service ([ai.models.generateContent], which may reject) and, when an
    image came back, the [try] block around [removeBackground], whose value
    is the base64 text of the processed PNG. *)
Record Call := {
  generateContent : Result GenerateContentResponse;
  removeBackground : Result string
}.

(** [part.inlineData && part.inlineData.data]: the empty string is falsy. *)
Definition inline_image (part : Part) : option string :=
  match inlineData part with
  | Some d =>
      match data d with
      | Some imageData => if decide (imageData = "") then None else Some imageData
      | None => None
      end
  | None => None
  end.

(** The [for ... of] loop returns at the first part that carries an image. *)
Fixpoint first_inline_image (ps : list Part) : option string :=
  match ps with
  | [] => None
  | part :: rest =>
      match inline_image part with
      | Some imageData => Some imageData
      | None => first_inline_image rest
      end
  end.

Definition dataUrl (base64 : string) : string :=
  "data:image/png;base64," +:+ base64.

Definition sticker (prompt dataurl : string) : ImageResponse :=
  {| fullsize := {| width := 1024; height := 1024; url := dataurl |};
     thumbnail := {| width := 512; height := 512; url := dataurl |};
     label := prompt |}.

(** [generateGeminiImage]. The request (the sticker prompt, the safety
    settings) only determines what the service answers, which is an input
    here. [candidates] is typed as an array of candidates, so the test
    [!candidate] on its first element is the test for an empty array. *)
Definition generateGeminiImage (prompt : string) (c : Call) : Result ImageResponse :=
  match generateContent c with
  | Throws e => Throws e
  | Returns response =>
      match candidates response with
      | None | Some [] => Throws "No candidates returned from Gemini API"
      | Some (candidate :: _) =>
          match content candidate with
          | None => Throws "Invalid candidate structure from Gemini API"
          | Some cont =>
              match parts cont with
              | None => Throws "Invalid candidate structure from Gemini API"
              | Some ps =>
                  match first_inline_image ps with
                  | Some imageData =>
                      match removeBackground c with
                      | Returns base64 => Returns (sticker prompt (dataUrl base64))
                      | Throws _ => Returns (sticker prompt (dataUrl imageData))
                      end
                  | None => Throws "No image generated"
                  end
              end
          end
      end
  end.

End Gemini.

(** [Promise.all]: fulfilled with the values in order when every promise is
    fulfilled, rejected as soon as one of them is. *)
Fixpoint Promise_all {A : Type} (ps : list (Result A)) : option (list A) :=
  match ps with
  | [] => Some []
  | Returns a :: rest =>
      match Promise_all rest with
      | Some l => Some (a :: l)
      | None => None
      end
  | Throws _ :: _ => None
  end.

(** ** JavaScript array and object operations used by the handlers *)

(** [Array.prototype.findIndex]: the first index whose element satisfies the
    predicate, [-1] when there is none. *)
Fixpoint findIndex {A : Type} (p : A → bool) (l : list A) : Z :=
  match l with
  | [] => -1
  | x :: rest =>
      if p x then 0
      else let i := findIndex p rest in
           if decide (i = -1) then -1 else 1 + i
  end.

(** [Array.prototype.some]. *)
Definition some {A : Type} (p : A → bool) (l : list A) : bool := existsb p l.

(** [array.splice(index, 1)] for an index that [findIndex] found. *)
Definition splice_one {A : Type} (index : Z) (l : list A) : list A :=
  delete (Z.to_nat index) l.

(** [array.push(x)]. *)
Definition push {A : Type} (x : A) (l : list A) : list A := l ++ [x].

(** The names every plain object inherits from [Object.prototype]; each of
    them is a function or an object, hence truthy. *)
Definition Object_prototype : list string :=
  [ "constructor"; "__defineGetter__"; "__defineSetter__"; "hasOwnProperty";
    "__lookupGetter__"; "__lookupSetter__"; "isPrototypeOf";
    "propertyIsEnumerable"; "toString"; "valueOf"; "__proto__";
    "toLocaleString" ].

(** What the expression [completedJobs[jobId]] evaluates to when it is not
    [undefined]: the images stored under an own property, or a member
    inherited from [Object.prototype]. *)
Inductive Property :=
| OwnImages (images : list ImageResponse)
| Inherited (name : string).

(** ** The state of the router *)

Record Job := {
  jobId : string;
  prompt : string;
  timeoutId : nat
}.

Record Cancelled := { cancelledId : string }.

(** The variables closed over by the handlers of [createImageRouter]. *)
Record Tracker := {
  jobQueue : list Job;
  completedJobs : gmap string (list ImageResponse);
  cancelledJobs : list Cancelled;
  credits : Z
}.

(** The [jobId] and [prompt] captured by the callback given to [setTimeout]. *)
Record Closure := {
  captured_jobId : string;
  captured_prompt : string
}.

(** The tracker together with the part of the runtime it depends on:
    - [timers]: the timeouts that are scheduled and have not elapsed, by
      handle ([NodeJS.Timeout] objects, numbered in order of creation);
    - [awaiting]: the callbacks that have started and are suspended at
      [await Promise.all(...)];
    - [random]: the values that the coming calls of [generateJobId] return. *)
Record World := {
  tracker : Tracker;
  timers : gmap nat Closure;
  awaiting : list Closure;
  nextTimeout : nat;
  random : list string
}.

Definition with_jobQueue (q : list Job) (t : Tracker) : Tracker :=
  {| jobQueue := q; completedJobs := completedJobs t;
     cancelledJobs := cancelledJobs t; credits := credits t |}.

Definition with_completedJobs (c : gmap string (list ImageResponse)) (t : Tracker) : Tracker :=
  {| jobQueue := jobQueue t; completedJobs := c;
     cancelledJobs := cancelledJobs t; credits := credits t |}.

Definition with_cancelledJobs (c : list Cancelled) (t : Tracker) : Tracker :=
  {| jobQueue := jobQueue t; completedJobs := completedJobs t;
     cancelledJobs := c; credits := credits t |}.

Definition with_credits (n : Z) (t : Tracker) : Tracker :=
  {| jobQueue := jobQueue t; completedJobs := completedJobs t;
     cancelledJobs := cancelledJobs t; credits := n |}.

Definition with_tracker (t : Tracker) (w : World) : World :=
  {| tracker := t; timers := timers w; awaiting := awaiting w;
     nextTimeout := nextTimeout w; random := random w |}.

Definition with_timers (ts : gmap nat Closure) (w : World) : World :=
  {| tracker := tracker w; timers := ts; awaiting := awaiting w;
     nextTimeout := nextTimeout w; random := random w |}.

Definition with_awaiting (a : list Closure) (w : World) : World :=
  {| tracker := tracker w; timers := timers w; awaiting := a;
     nextTimeout := nextTimeout w; random := random w |}.

(** [let credits = 10], empty collections, nothing scheduled. *)
Definition initial (rnd : list string) : World :=
  {| tracker := {| jobQueue := []; completedJobs := ∅;
                   cancelledJobs := []; credits := 10 |};
     timers := ∅; awaiting := []; nextTimeout := 0; random := rnd |}.

Definition CREDITS_IN_BUNDLE : Z := 10.

(** ** Responses *)

Inductive Body :=
| Text (message : string)
| CreditsBody (balance : Z)
| JobIdBody (id : string)
| StatusBody (state : string) (images : option Property) (balance : option Z).

Record Response := { status : Z; body : Body }.

Definition send (code : Z) (b : Body) : Response := {| status := code; body := b |}.

(** [!s] for a query parameter read [as string]: missing or empty. *)
Definition missing (s : option string) : bool :=
  match s with
  | Some v => bool_decide (v = "")
  | None => true
  end.

Definition param (s : option string) : string := default "" s.

(** ** The job ID generator

    [Math.random().toString(36).substring(2, 15)]: the digits that follow
    ["0."] in the base-36 expansion, thirteen at most (none when the random
    number is 0). [generated_id] is that shape; the successive values are
    taken from [random]. *)
Definition base36_digit (c : Ascii.ascii) : bool :=
  let n := Ascii.nat_of_ascii c in
  ((48 <=? n)%nat && (n <=? 57)%nat) || ((97 <=? n)%nat && (n <=? 122)%nat).

Fixpoint base36_digits (s : string) : bool :=
  match s with
  | EmptyString => true
  | String c rest => base36_digit c && base36_digits rest
  end.

Definition generated_id (s : string) : bool :=
  base36_digits s && (String.length s <=? 13)%nat.

Definition generateJobId (w : World) : option (string * World) :=
  match random w with
  | [] => None
  | id :: rest =>
      Some (id, {| tracker := tracker w; timers := timers w;
                   awaiting := awaiting w; nextTimeout := nextTimeout w;
                   random := rest |})
  end.

(** ** Timers *)

(** [setTimeout(callback, 5000)]: a new handle, under which the callback is
    scheduled. *)
Definition setTimeout (callback : Closure) (w : World) : nat * World :=
  (nextTimeout w,
   {| tracker := tracker w; timers := <[nextTimeout w := callback]> (timers w);
      awaiting := awaiting w; nextTimeout := S (nextTimeout w);
      random := random w |}).

(** [clearTimeout(handle)]: unschedules the callback when it has not run yet,
    and does nothing otherwise. *)
Definition clearTimeout (handle : nat) (w : World) : World :=
  with_timers (delete handle (timers w)) w.

(** ** The handlers *)

(** [(job) => job.jobId === jobId], on either list. *)
Definition is_job (id : string) (job : Job) : bool := bool_decide (jobId job = id).
Definition is_cancelled (id : string) (c : Cancelled) : bool :=
  bool_decide (cancelledId c = id).

(** [completedJobs[jobId]], [None] standing for [undefined]. *)
Definition lookup_completed (c : gmap string (list ImageResponse)) (id : string)
  : option Property :=
  match c !! id with
  | Some images => Some (OwnImages images)
  | None => if decide (id ∈ Object_prototype) then Some (Inherited id) else None
  end.

(** GET /api/credits *)
Definition get_credits (w : World) : World * Response :=
  (w, send 200 (CreditsBody (credits (tracker w)))).

(** POST /api/purchase-credits *)
Definition purchase_credits (w : World) : World * Response :=
  let t := with_credits (credits (tracker w) + CREDITS_IN_BUNDLE) (tracker w) in
  (with_tracker t w, send 200 (CreditsBody (credits t))).

(** GET /api/queue-image-generation. The result is [None] only when the model
    has no value left for [generateJobId] to return. *)
Definition queue_image_generation (q : option string) (w : World)
  : option (World * Response) :=
  if decide (credits (tracker w) <= 0) then
    Some (w, send 403 (Text "Not enough credits required to generate images."))
  else if missing q then
    Some (w, send 400 (Text "Missing prompt parameter."))
  else
    match generateJobId w with
    | None => None
    | Some (id, w1) =>
        let '(handle, w2) :=
          setTimeout {| captured_jobId := id; captured_prompt := param q |} w1 in
        let job := {| jobId := id; prompt := param q; timeoutId := handle |} in
        Some (with_tracker (with_jobQueue (push job (jobQueue (tracker w2))) (tracker w2)) w2,
              send 200 (JobIdBody id))
    end.

(** Lines 142-147: what the callback does once the four images are there.
    The ID is one that [generateJobId] returned, a string of base-36 digits,
    so the assignment [completedJobs[jobId] = images] creates or overwrites
    an own property. *)
Definition finish_job (id : string) (images : list ImageResponse) (t : Tracker) : Tracker :=
  let index := findIndex (is_job id) (jobQueue t) in
  if decide (index ≠ -1) then
    with_credits (credits t - 1)
      (with_completedJobs (<[id := images]> (completedJobs t))
         (with_jobQueue (splice_one index (jobQueue t)) t))
  else t.

(** The four concurrent calls of the adapter for one prompt. *)
Definition generate_four (p : string) (c1 c2 c3 c4 : Gemini.Call)
  : option (list ImageResponse) :=
  Promise_all [ Gemini.generateGeminiImage p c1; Gemini.generateGeminiImage p c2;
                Gemini.generateGeminiImage p c3; Gemini.generateGeminiImage p c4 ].

(** The body of the callback from the point where [Promise.all] settles; a
    rejection is caught and only logged. *)
Definition timeout_callback (c : Closure) (c1 c2 c3 c4 : Gemini.Call) (t : Tracker)
  : Tracker :=
  match generate_four (captured_prompt c) c1 c2 c3 c4 with
  | Some images => finish_job (captured_jobId c) images t
  | None => t
  end.

(** GET /api/job-status *)
Definition job_status (q : option string) (w : World) : World * Response :=
  if missing q then (w, send 400 (Text "Missing jobId parameter."))
  else
    let id := param q in
    let t := tracker w in
    match lookup_completed (completedJobs t) id with
    | Some found =>
        (w, send 200 (StatusBody "completed" (Some found) (Some (credits t))))
    | None =>
        if some (is_job id) (jobQueue t) then
          (w, send 200 (StatusBody "processing" None None))
        else if some (is_cancelled id) (cancelledJobs t) then
          (w, send 200 (StatusBody "cancelled" None None))
        else (w, send 404 (Text "Job not found."))
    end.

(** POST /api/job-status/cancel. [jobQueue[index]] is defined whenever
    [findIndex] did not return [-1] ([findIndex_lookup] below); the last
    branch, where the destructuring would throw after the push, is dead.
    A [NodeJS.Timeout] is an object, so the test [if (timeoutId)] holds. *)
Definition cancel_job (q : option string) (w : World) : World * Response :=
  if missing q then (w, send 400 (Text "Missing jobId parameter."))
  else
    let id := param q in
    let t := tracker w in
    let index := findIndex (is_job id) (jobQueue t) in
    if decide (index ≠ -1) then
      let t1 := with_cancelledJobs (push {| cancelledId := id |} (cancelledJobs t)) t in
      match jobQueue t1 !! Z.to_nat index with
      | Some job =>
          let t2 := with_jobQueue (splice_one index (jobQueue t1)) t1 in
          (clearTimeout (timeoutId job) (with_tracker t2 w),
           send 200 (Text "Job successfully cancelled."))
      | None => (with_tracker t1 w, send 500 (Text "TypeError"))
      end
    else (w, send 404 (Text "Job not found.")).

(** ** The event loop *)

(** What can happen to the router: one of the five requests, a timeout that
    elapses (its callback starts the four calls and suspends), or the four
    calls of a suspended callback settling with the given outcomes. Handlers
    contain no [await], so each runs to completion before the next event. *)
Inductive Event :=
| GetCredits
| PostPurchaseCredits
| GetQueueImageGeneration (q : option string)
| GetJobStatus (q : option string)
| PostCancelJob (q : option string)
| TimeoutElapses (handle : nat)
| GenerationSettles (k : nat) (c1 c2 c3 c4 : Gemini.Call).

(** One event; [None] when the event cannot happen in this world (no such
    timeout or suspended callback, no random value left). Requests come with
    their response. *)
Definition step (e : Event) (w : World) : option (World * option Response) :=
  match e with
  | GetCredits => let '(w', r) := get_credits w in Some (w', Some r)
  | PostPurchaseCredits => let '(w', r) := purchase_credits w in Some (w', Some r)
  | GetQueueImageGeneration q =>
      match queue_image_generation q w with
      | Some (w', r) => Some (w', Some r)
      | None => None
      end
  | GetJobStatus q => let '(w', r) := job_status q w in Some (w', Some r)
  | PostCancelJob q => let '(w', r) := cancel_job q w in Some (w', Some r)
  | TimeoutElapses handle =>
      match timers w !! handle with
      | Some callback =>
          Some (with_awaiting (push callback (awaiting w))
                  (with_timers (delete handle (timers w)) w), None)
      | None => None
      end
  | GenerationSettles k c1 c2 c3 c4 =>
      match awaiting w !! k with
      | Some callback =>
          Some (with_tracker (timeout_callback callback c1 c2 c3 c4 (tracker w))
                  (with_awaiting (delete k (awaiting w)) w), None)
      | None => None
      end
  end.

(** A sequence of events, from the left. *)
Fixpoint run (es : list Event) (w : World) : option World :=
  match es with
  | [] => Some w
  | e :: rest =>
      match step e w with
      | Some (w', _) => run rest w'
      | None => None
      end
  end.

(** The states of the tracker that the router can be in: [generateJobId]
    returns strings of base-36 digits, and nothing else is assumed. *)
Definition reachable (w : World) : Prop :=
  ∃ rnd es, forallb generated_id rnd = true ∧ run es (initial rnd) = Some w.

(** ** Membership in the three collections *)

Definition pending_ids (t : Tracker) : list string := jobId <$> jobQueue t.
Definition cancelled_ids (t : Tracker) : list string := cancelledId <$> cancelledJobs t.

Definition in_pending (id : string) (t : Tracker) : Prop := id ∈ pending_ids t.
Definition in_completed (id : string) (t : Tracker) : Prop := is_Some (completedJobs t !! id).
Definition in_cancelled (id : string) (t : Tracker) : Prop := id ∈ cancelled_ids t.

(** At most one of the three collections holds the ID. *)
Definition exclusive (id : string) (t : Tracker) : Prop :=
  ¬ (in_pending id t ∧ in_completed id t) ∧
  ¬ (in_pending id t ∧ in_cancelled id t) ∧
  ¬ (in_completed id t ∧ in_cancelled id t).

(** ** Sample inputs *)

Module Sample.

(** A response with a text part followed by an image part. *)
Definition response : Gemini.GenerateContentResponse :=
  {| Gemini.candidates := Some
       [ {| Gemini.content := Some
              {| Gemini.parts := Some
                   [ {| Gemini.inlineData := None |};
                     {| Gemini.inlineData := Some {| Gemini.data := Some "aVZCT1J3" |} |} ] |} |} ] |}.

(** The service answers with [response] and the background is removed. *)
Definition call : Gemini.Call :=
  {| Gemini.generateContent := Returns response;
     Gemini.removeBackground := Returns "UE5HIQ" |}.

(** The same answer, with a background removal that throws. *)
Definition call_unprocessed : Gemini.Call :=
  {| Gemini.generateContent := Returns response;
     Gemini.removeBackground := Throws "removeBackground failed" |}.

(** The service answers without candidates. *)
Definition call_rejected : Gemini.Call :=
  {| Gemini.generateContent := Returns {| Gemini.candidates := Some [] |};
     Gemini.removeBackground := Returns "UE5HIQ" |}.

(** Eleven different job IDs of the shape [generateJobId] produces. *)
Definition ids : list string :=
  [ "4fzyo82mvyr"; "8k2j5h8d1m4"; "p0q9w8e7r6t"; "z1x2c3v4b5n"; "m6n7b8v9c0x";
    "a1s2d3f4g5h"; "j6k7l8q9w0e"; "r1t2y3u4i5o"; "p6a7s8d9f0g"; "h1j2k3l4z5x";
    "c6v7b8n9m0q" ].

(** [n] jobs are queued, their timeouts elapse, and all succeed. *)
Definition complete_jobs (n : nat) : list Event :=
  replicate n (GetQueueImageGeneration (Some "cat"))
  ++ (TimeoutElapses <$> seq 0 n)
  ++ replicate n (GenerationSettles 0 call call call call).

(** Two jobs: the first completes, the second is cancelled meanwhile. *)
Definition complete_and_cancel : list Event :=
  [ GetQueueImageGeneration (Some "cat"); GetQueueImageGeneration (Some "dog");
    TimeoutElapses 0; PostCancelJob (Some "8k2j5h8d1m4");
    GenerationSettles 0 call call call call ].

(** Two jobs that were given the same ID, which is then cancelled. *)
Definition cancel_repeated_id : list Event :=
  [ GetQueueImageGeneration (Some "cat"); GetQueueImageGeneration (Some "dog");
    PostCancelJob (Some "4fzyo82mvyr") ].

(** After [complete_and_cancel]: a purchase, a third job that completes, and
    a late attempt to cancel the first job. *)
Definition one_more_job : list Event :=
  [ PostPurchaseCredits; GetQueueImageGeneration (Some "fox"); TimeoutElapses 2;
    GenerationSettles 0 call call call call; PostCancelJob (Some "4fzyo82mvyr") ].

(** Two jobs that were given the same ID; the callback of the second one,
    the dog job, is the one that starts. *)
Definition second_of_repeated_id_starts : list Event :=
  [ GetQueueImageGeneration (Some "cat"); GetQueueImageGeneration (Some "dog");
    TimeoutElapses 1 ].

(** Two jobs that were given the same ID; the first one, the cat job, is
    cancelled after its callback has started, and its images arrive. *)
Definition cancelled_job_of_repeated_id_settles : list Event :=
  [ GetQueueImageGeneration (Some "cat"); GetQueueImageGeneration (Some "dog");
    TimeoutElapses 0; PostCancelJob (Some "4fzyo82mvyr");
    GenerationSettles 0 call call call call ].

End Sample.

(** ** Statements *)

(** Exclusive membership as the specification words it: in every reachable
    state each job ID is in at most one of the three collections. *)
Definition always_exclusive : Prop :=
  ∀ (w : World) (id : string), reachable w → exclusive id (tracker w).

(** What keeps the three collections apart as long as [generateJobId] does
    not repeat itself: the pending IDs and the IDs still to be returned are
    all different, and no completed or cancelled ID is among them. *)
Record ids_apart (w : World) : Prop := {
  apart_distinct : NoDup (pending_ids (tracker w) ++ random w);
  apart_completed : ∀ id,
    in_completed id (tracker w) → id ∉ pending_ids (tracker w) ++ random w;
  apart_cancelled : ∀ id,
    in_cancelled id (tracker w) → id ∉ pending_ids (tracker w) ++ random w;
  apart_finished : ∀ id,
    in_completed id (tracker w) → ¬ in_cancelled id (tracker w)
}.

(** The firing of a callback as the specification words it for a job that is
    still pending: the job leaves the pending jobs, its four images are
    stored under its ID and one credit is taken. *)
Definition callback_finishes_its_job : Prop :=
  ∀ (w w' : World) (k : nat) (c : Closure) (c1 c2 c3 c4 : Gemini.Call)
    (images : list ImageResponse),
    reachable w →
    awaiting w !! k = Some c →
    generate_four (captured_prompt c) c1 c2 c3 c4 = Some images →
    in_pending (captured_jobId c) (tracker w) →
    step (GenerationSettles k c1 c2 c3 c4) w = Some (w', None) →
    ¬ in_pending (captured_jobId c) (tracker w') ∧
    completedJobs (tracker w') !! captured_jobId c = Some images ∧
    credits (tracker w') = credits (tracker w) - 1.

(** The validation error as the specification words it: a queue request
    without a prompt gets the 400 answer whatever the balance. *)
Definition validation_regardless_of_balance : Prop :=
  ∀ (w : World) (q : option string),
    reachable w → missing q = true →
    ∃ r, queue_image_generation q w = Some (w, r) ∧ status r = 400.

(** Cancellation as the specification words it for the IDs that are not
    pending: every such request is answered with 404 and changes nothing. *)
Definition cancel_not_pending_is_not_found : Prop :=
  ∀ (w : World) (q : option string),
    reachable w → ¬ in_pending (param q) (tracker w) →
    cancel_job q w = (w, send 404 (Text "Job not found.")).

(** ** The text of a job ID *)

(** [s.substring(start, finish)] for [start <= finish]: the characters from
    index [start] up to [finish], not included, as many of them as [s] has. *)
Definition js_substring (start finish : nat) (s : string) : string :=
  String.substring start (finish - start) s.

(** [generateJobId] as a function of the text that
    [Math.random().toString(36)] evaluated to. *)
Definition generateJobId_of (printed : string) : string :=
  js_substring 2 15 printed.

(** ** Traces and what they keep *)

(** The number of purchase requests in a sequence of events. *)
Fixpoint purchases (es : list Event) : Z :=
  match es with
  | [] => 0
  | PostPurchaseCredits :: rest => 1 + purchases rest
  | _ :: rest => purchases rest
  end.

(** Timeout handles are handed out once: the scheduled ones and those of the
    pending jobs are older than the next one, and no two pending jobs share
    a handle. *)
Record handles_fresh (w : World) : Prop := {
  handles_timers : ∀ h, is_Some (timers w !! h) → (h < nextTimeout w)%nat;
  handles_jobs : ∀ job, job ∈ jobQueue (tracker w) → (timeoutId job < nextTimeout w)%nat;
  handles_distinct : NoDup (timeoutId <$> jobQueue (tracker w))
}.

(** Every prompt that the router holds is non-empty: those of the pending
    jobs, of the scheduled callbacks and of the started ones. *)
Record prompts_present (w : World) : Prop := {
  present_jobs : ∀ job, job ∈ jobQueue (tracker w) → prompt job ≠ "";
  present_timers : ∀ h c, timers w !! h = Some c → captured_prompt c ≠ "";
  present_awaiting : ∀ c, c ∈ awaiting w → captured_prompt c ≠ ""
}.

(** A pending job that nothing will finish any more: no scheduled or started
    callback carries its ID, and [generateJobId] will not return it again. *)
Record abandoned (id : string) (w : World) : Prop := {
  abandoned_pending : in_pending id (tracker w);
  abandoned_timers : ∀ h c, timers w !! h = Some c → captured_jobId c ≠ id;
  abandoned_awaiting : ∀ c, c ∈ awaiting w → captured_jobId c ≠ id;
  abandoned_random : id ∉ random w
}.

(** Each job ID is carried by one callback at most, scheduled or started,
    and by none once [generateJobId] is still to return it. *)
Record closures_once (w : World) : Prop := {
  once_timers_random : ∀ h c, timers w !! h = Some c → captured_jobId c ∉ random w;
  once_awaiting_random : ∀ c, c ∈ awaiting w → captured_jobId c ∉ random w;
  once_timers : ∀ h h' c c',
    timers w !! h = Some c → timers w !! h' = Some c' →
    captured_jobId c = captured_jobId c' → h = h';
  once_awaiting : NoDup (captured_jobId <$> awaiting w);
  once_apart : ∀ h c c',
    timers w !! h = Some c → c' ∈ awaiting w → captured_jobId c ≠ captured_jobId c';
  once_random : NoDup (random w)
}.

(** The IDs handed out so far, out of the values [rnd] that [generateJobId]
    returns in turn, are the IDs of the three collections. *)
Definition ids_tracked (rnd : list string) (w : World) : Prop :=
  ∃ issued : list string,
    rnd = issued ++ random w ∧
    ∀ id, id ∈ issued ↔
          in_pending id (tracker w) ∨ in_completed id (tracker w)
          ∨ in_cancelled id (tracker w).

(** The effect of one event, case by case: what [step] does to the world,
    with the conditions under which it does it ([step_transition] below). *)
Inductive transition : Event → World → World → Prop :=
| credits_read w : transition GetCredits w w
| credits_purchased w :
    transition PostPurchaseCredits w
      (with_tracker (with_credits (credits (tracker w) + 10) (tracker w)) w)
| job_refused q w :
    credits (tracker w) <= 0 ∨ missing q = true →
    transition (GetQueueImageGeneration q) w w
| job_queued q w id rest :
    0 < credits (tracker w) → missing q = false → random w = id :: rest →
    transition (GetQueueImageGeneration q) w
      {| tracker :=
           with_jobQueue
             (push {| jobId := id; prompt := param q; timeoutId := nextTimeout w |}
                (jobQueue (tracker w)))
             (tracker w);
         timers := <[nextTimeout w :=
                       {| captured_jobId := id; captured_prompt := param q |}]>
                     (timers w);
         awaiting := awaiting w;
         nextTimeout := S (nextTimeout w);
         random := rest |}
| status_read q w : transition (GetJobStatus q) w w
| cancel_refused q w :
    missing q = true ∨ ¬ in_pending (param q) (tracker w) →
    transition (PostCancelJob q) w w
| job_cancelled q w n job :
    missing q = false → jobQueue (tracker w) !! n = Some job → jobId job = param q →
    transition (PostCancelJob q) w
      (clearTimeout (timeoutId job)
         (with_tracker
            (with_jobQueue (delete n (jobQueue (tracker w)))
               (with_cancelledJobs
                  (push {| cancelledId := param q |} (cancelledJobs (tracker w)))
                  (tracker w))) w))
| callback_started handle c w :
    timers w !! handle = Some c →
    transition (TimeoutElapses handle) w
      (with_awaiting (push c (awaiting w)) (with_timers (delete handle (timers w)) w))
| results_dropped k c c1 c2 c3 c4 w :
    awaiting w !! k = Some c →
    generate_four (captured_prompt c) c1 c2 c3 c4 = None
    ∨ ¬ in_pending (captured_jobId c) (tracker w) →
    transition (GenerationSettles k c1 c2 c3 c4) w
      (with_awaiting (delete k (awaiting w)) w)
| job_completed k c c1 c2 c3 c4 w images n job :
    awaiting w !! k = Some c →
    generate_four (captured_prompt c) c1 c2 c3 c4 = Some images →
    jobQueue (tracker w) !! n = Some job → jobId job = captured_jobId c →
    transition (GenerationSettles k c1 c2 c3 c4) w
      (with_tracker
         (with_credits (credits (tracker w) - 1)
            (with_completedJobs (<[captured_jobId c := images]> (completedJobs (tracker w)))
               (with_jobQueue (delete n (jobQueue (tracker w))) (tracker w))))
         (with_awaiting (delete k (awaiting w)) w)).

(** * Properties *)

(** ** Arrays *)

Section arrays.
Context {A : Type}.
Implicit Types (p : A → bool) (l : list A).

Lemma findIndex_range p l : -1 <= findIndex p l < Z.of_nat (length l).
Proof.
  induction l as [|x l IH]; simpl length; simpl findIndex; [lia|].
  destruct (p x); [lia|]. case_decide; lia.
Qed.

Lemma findIndex_none p l :
  findIndex p l = -1 ↔ ∀ x, x ∈ l → p x = false.
Proof.
  induction l as [|x l IH]; simpl.
  - split; [|done]. intros _ x Hx. by apply elem_of_nil in Hx.
  - destruct (p x) eqn:Hp.
    + split; [done|]. intros H. specialize (H x (list_elem_of_here _ _)). congruence.
    + pose proof (findIndex_range p l) as Hr. case_decide as Hi.
      * split; [|done]. intros _ y [->|Hy]%elem_of_cons; [done|]. by apply IH.
      * split; [lia|]. intros H. exfalso. apply Hi, IH.
        intros y Hy. apply H. by right.
Qed.

(** When [findIndex] finds something, it is the first element that
    satisfies the predicate. *)
Lemma findIndex_lookup p l :
  findIndex p l ≠ -1 →
  ∃ x, l !! Z.to_nat (findIndex p l) = Some x ∧ p x = true ∧
       ∀ y, y ∈ take (Z.to_nat (findIndex p l)) l → p y = false.
Proof.
  induction l as [|x l IH]; simpl; [done|].
  destruct (p x) eqn:Hp.
  - intros _. exists x. simpl. split_and!; [done..|].
    intros y Hy. by apply elem_of_nil in Hy.
  - pose proof (findIndex_range p l) as Hr. case_decide as Hi; [done|].
    intros _. destruct (IH Hi) as (y & Hy & Hpy & Hbefore).
    replace (Z.to_nat (1 + findIndex p l)) with (S (Z.to_nat (findIndex p l))) by lia.
    exists y. simpl. split_and!; [done..|].
    intros z [->|Hz]%elem_of_cons; [done|]. by apply Hbefore.
Qed.

Lemma some_true p l : some p l = true ↔ ∃ x, x ∈ l ∧ p x = true.
Proof.
  unfold some. rewrite existsb_exists. setoid_rewrite <- list_elem_of_In. done.
Qed.

Lemma some_findIndex p l : some p l = bool_decide (findIndex p l ≠ -1).
Proof.
  apply eq_true_iff_eq. rewrite some_true, bool_decide_eq_true, findIndex_none.
  split.
  - intros (x & Hx & Hp) H. specialize (H x Hx). congruence.
  - intros H. destruct (decide (findIndex p l = -1)) as [Hi|Hi].
    + exfalso. apply H. by apply findIndex_none.
    + destruct (findIndex_lookup p l Hi) as (x & Hx & Hp & _).
      exists x. split; [by eapply list_elem_of_lookup_2|done].
Qed.

Lemma NoDup_delete_lookup `{!EqDecision A} l (n : nat) x :
  NoDup l → l !! n = Some x → x ∉ delete n l.
Proof.
  revert n. induction l as [|y l IH]; intros n Hnd Hl; [done|].
  apply NoDup_cons in Hnd as [Hy Hnd]. destruct n as [|n]; simpl in *.
  - by simplify_eq.
  - intros [->|Hin]%elem_of_cons.
    + apply Hy. by eapply list_elem_of_lookup_2.
    + by eapply IH.
Qed.

End arrays.

(** ** The adapter *)

(** What [part.inlineData && part.inlineData.data] amounts to, in terms of
    the fields of the part. *)
Lemma inline_image_some (part : Gemini.Part) (imageData : string) :
  Gemini.inline_image part = Some imageData ↔
  ∃ payload, Gemini.inlineData part = Some payload ∧
             Gemini.data payload = Some imageData ∧ imageData ≠ "".
Proof.
  unfold Gemini.inline_image. split.
  - intros H. repeat case_match; simplify_eq. eauto.
  - intros (payload & -> & -> & Hne). by rewrite decide_False.
Qed.

Lemma inline_image_none (part : Gemini.Part) :
  Gemini.inline_image part = None ↔
  ∀ payload s, Gemini.inlineData part = Some payload →
               Gemini.data payload = Some s → s = "".
Proof.
  unfold Gemini.inline_image. split.
  - intros H payload s Hp Hs. rewrite Hp, Hs in H. by case_decide.
  - intros H. destruct (Gemini.inlineData part) as [payload|]; [|done].
    destruct (Gemini.data payload) as [s|] eqn:Hs; [|done].
    rewrite (H payload s eq_refl Hs). by rewrite decide_True.
Qed.

(** The loop stops at the first part with a non-empty payload. *)
Lemma first_inline_image_some (ps : list Gemini.Part) (imageData : string) :
  Gemini.first_inline_image ps = Some imageData →
  ∃ before part after,
    ps = before ++ part :: after ∧
    (∀ q, q ∈ before → Gemini.inline_image q = None) ∧
    Gemini.inline_image part = Some imageData.
Proof.
  induction ps as [|part ps IH]; simpl; [done|].
  destruct (Gemini.inline_image part) as [d|] eqn:Hpart.
  - intros ?; simplify_eq. exists [], part, ps. split; [done|]. split; [|done].
    intros q Hq. by apply elem_of_nil in Hq.
  - intros (before & part' & after & -> & Hbefore & Hpart')%IH.
    exists (part :: before), part', after. split; [done|]. split; [|done].
    intros q [->|Hq]%elem_of_cons; [done|]. by apply Hbefore.
Qed.

(** C9. Every image result that [generateGeminiImage] returns for a prompt
    has a 1024x1024 fullsize and a 512x512 thumbnail representation, the
    prompt as its label, and one URL for both representations. The service
    then answered with a first candidate one of whose parts carries a
    non-empty inline payload, no part before it carrying one, and the URL is
    ["data:image/png;base64,"] followed by the processed image when the
    background removal succeeded, and followed by that payload, as it was
    received, when the removal threw. *)
Theorem generateGeminiImage_returns (p : string) (c : Gemini.Call) (img : ImageResponse) :
  Gemini.generateGeminiImage p c = Returns img →
  width (fullsize img) = 1024 ∧ height (fullsize img) = 1024 ∧
  width (thumbnail img) = 512 ∧ height (thumbnail img) = 512 ∧
  label img = p ∧
  url (fullsize img) = url (thumbnail img) ∧
  ∃ response candidate others cont before part after payload imageData,
    Gemini.generateContent c = Returns response ∧
    Gemini.candidates response = Some (candidate :: others) ∧
    Gemini.content candidate = Some cont ∧
    Gemini.parts cont = Some (before ++ part :: after) ∧
    (∀ q d s, q ∈ before →
       Gemini.inlineData q = Some d → Gemini.data d = Some s → s = "") ∧
    Gemini.inlineData part = Some payload ∧
    Gemini.data payload = Some imageData ∧
    imageData ≠ "" ∧
    match Gemini.removeBackground c with
    | Returns base64 => url (fullsize img) = "data:image/png;base64," +:+ base64
    | Throws _ => url (fullsize img) = "data:image/png;base64," +:+ imageData
    end.
Proof.
  unfold Gemini.generateGeminiImage.
  destruct (Gemini.generateContent c) as [response|] eqn:Hresp; [|done].
  destruct (Gemini.candidates response) as [[|candidate others]|] eqn:Hcands; [done| |done].
  destruct (Gemini.content candidate) as [cont|] eqn:Hcont; [|done].
  destruct (Gemini.parts cont) as [ps|] eqn:Hparts; [|done].
  destruct (Gemini.first_inline_image ps) as [imageData|] eqn:Himg; [|done].
  intros Hret.
  assert (∃ u, img = Gemini.sticker p u ∧
               match Gemini.removeBackground c with
               | Returns base64 => u = "data:image/png;base64," +:+ base64
               | Throws _ => u = "data:image/png;base64," +:+ imageData
               end) as (u & -> & Hu).
  { destruct (Gemini.removeBackground c); simplify_eq; eauto. }
  apply first_inline_image_some in Himg
    as (before & part & after & -> & Hbefore & Hpart).
  apply inline_image_some in Hpart as (payload & Hpayload & Hdata & Hne).
  simpl. do 6 (split; [reflexivity|]).
  exists response, candidate, others, cont, before, part, after, payload, imageData.
  split_and!; try done.
  intros q d s Hq Hd Hs. specialize (Hbefore q Hq).
  rewrite inline_image_none in Hbefore. by eapply Hbefore.
Qed.

Lemma generateGeminiImage_returns_witness :
  Gemini.generateGeminiImage "cat" Sample.call_unprocessed
    = Returns (Gemini.sticker "cat" "data:image/png;base64,aVZCT1J3") ∧
  url (fullsize (Gemini.sticker "cat" "data:image/png;base64,aVZCT1J3"))
    = url (thumbnail (Gemini.sticker "cat" "data:image/png;base64,aVZCT1J3")).
Proof.
  split; [reflexivity|].
  apply (generateGeminiImage_returns "cat" Sample.call_unprocessed). reflexivity.
Defined.

(** The adapter returns an image whenever the service answers and the first
    candidate carries a non-empty inline payload, whether or not the
    background can be removed. *)
Lemma generateGeminiImage_succeeds (p : string) (c : Gemini.Call)
    response candidate others cont ps imageData :
  Gemini.generateContent c = Returns response →
  Gemini.candidates response = Some (candidate :: others) →
  Gemini.content candidate = Some cont →
  Gemini.parts cont = Some ps →
  Gemini.first_inline_image ps = Some imageData →
  ∃ img, Gemini.generateGeminiImage p c = Returns img.
Proof.
  intros Hresp Hcands Hcont Hparts Himg. unfold Gemini.generateGeminiImage.
  rewrite Hresp, Hcands, Hcont, Hparts, Himg.
  destruct (Gemini.removeBackground c); eauto.
Qed.

(** ** Timeouts *)

(** A scheduled timeout that elapses starts its callback, which suspends at
    [await Promise.all(...)]; the tracker is not touched, and the timeout
    cannot elapse a second time. *)
Lemma timeout_elapses_starts_callback (w : World) (handle : nat) (c : Closure) :
  timers w !! handle = Some c →
  ∃ w', step (TimeoutElapses handle) w = Some (w', None) ∧
        tracker w' = tracker w ∧
        awaiting w' = push c (awaiting w) ∧
        step (TimeoutElapses handle) w' = None.
Proof.
  intros Hc. eexists. split; [simpl; rewrite Hc; reflexivity|].
  split; [done|]. split; [done|]. simpl. by rewrite lookup_delete_eq.
Qed.

(** A job whose generation fails stays pending: its status is [processing]
    and the balance is untouched. *)
Example failed_job_stays_pending :
  ∃ w,
    run [ GetQueueImageGeneration (Some "cat"); TimeoutElapses 0;
          GenerationSettles 0 Sample.call Sample.call_rejected Sample.call Sample.call ]
        (initial Sample.ids) = Some w ∧
    in_pending "4fzyo82mvyr" (tracker w) ∧
    credits (tracker w) = 10 ∧
    (job_status (Some "4fzyo82mvyr") w).2 = send 200 (StatusBody "processing" None None).
Proof.
  eexists. split; [vm_compute; reflexivity|].
  split; [apply list_elem_of_here|]. split; reflexivity.
Qed.

(** ** Credits *)

Lemma run_purchases (n : nat) (w : World) :
  run (replicate n PostPurchaseCredits) w
  = Some (with_tracker (with_credits (credits (tracker w) + 10 * Z.of_nat n) (tracker w)) w).
Proof.
  revert w. induction n as [|n IH]; intros w.
  - simpl. destruct w as [[] ? ? ? ?]. unfold with_tracker, with_credits. simpl.
    do 3 f_equal. lia.
  - simpl. rewrite IH. unfold with_tracker, with_credits, CREDITS_IN_BUNDLE. simpl.
    do 3 f_equal. lia.
Qed.

(** C8. A purchase adds exactly 10 to the balance, whatever the state, touches
    nothing else and answers with the new balance; [n] purchases in a row
    from the initial state give a balance of 10 + 10 n. *)
Theorem purchase_credits_adds_ten :
  (∀ w : World,
     purchase_credits w
     = (with_tracker (with_credits (credits (tracker w) + 10) (tracker w)) w,
        send 200 (CreditsBody (credits (tracker w) + 10)))) ∧
  (∀ (rnd : list string) (n : nat),
     credits ∘ tracker <$> run (replicate n PostPurchaseCredits) (initial rnd)
     = Some (10 + 10 * Z.of_nat n)).
Proof.
  split; [done|]. intros rnd n. by rewrite run_purchases.
Qed.

(** C3. A queue request made while the balance is 0 or less is answered
    with 403; the world is left as it was: no job ID has been drawn, no
    timeout scheduled, and nothing added to the pending jobs. *)
Theorem queue_without_credits (w : World) (q : option string) :
  credits (tracker w) <= 0 →
  queue_image_generation q w
  = Some (w, send 403 (Text "Not enough credits required to generate images.")).
Proof. intros H. unfold queue_image_generation. by case_decide. Qed.

Lemma queue_without_credits_witness :
  ∃ w, run (Sample.complete_jobs 10) (initial Sample.ids) = Some w ∧
       credits (tracker w) <= 0 ∧
       queue_image_generation (Some "cat") w
       = Some (w, send 403 (Text "Not enough credits required to generate images.")).
Proof.
  eexists. split; [vm_compute; reflexivity|].
  split; [vm_compute; discriminate|].
  apply (queue_without_credits _ (Some "cat")). vm_compute. discriminate.
Defined.

(** After ten completed jobs the balance is 0, and a request without a prompt
    is answered with 403. *)
Lemma validation_after_credits_check :
  ∃ w, run (Sample.complete_jobs 10) (initial Sample.ids) = Some w ∧
       credits (tracker w) = 0 ∧
       queue_image_generation None w
       = Some (w, send 403 (Text "Not enough credits required to generate images.")) ∧
       ¬ validation_regardless_of_balance.
Proof.
  eexists. split; [vm_compute; reflexivity|].
  match goal with |- credits (tracker ?W) = 0 ∧ _ => set (w := W) end.
  split; [reflexivity|]. split; [reflexivity|].
  intros H.
  destruct (H w None) as (r & Hr & Hstatus); [|done|].
  - exists Sample.ids, (Sample.complete_jobs 10). split; vm_compute; reflexivity.
  - vm_compute in Hr. by simplify_eq.
Qed.

(** C4, amended. A queue request whose prompt is missing or empty leaves the
    world as it was (no job ID drawn, no job added) and is answered with 400
    when the balance is positive; when the balance is 0 or less the credits
    check comes first and the answer is 403. *)
Theorem queue_without_prompt (w : World) (q : option string) :
  missing q = true →
  (0 < credits (tracker w) →
   queue_image_generation q w = Some (w, send 400 (Text "Missing prompt parameter."))) ∧
  (credits (tracker w) <= 0 →
   queue_image_generation q w
   = Some (w, send 403 (Text "Not enough credits required to generate images."))).
Proof.
  intros Hq. unfold queue_image_generation. rewrite Hq.
  split; intros H; case_decide; done || lia.
Qed.

Lemma queue_without_prompt_witness :
  missing (Some "") = true ∧
  queue_image_generation (Some "") (initial Sample.ids)
  = Some (initial Sample.ids, send 400 (Text "Missing prompt parameter.")).
Proof.
  split; [reflexivity|].
  apply (queue_without_prompt (initial Sample.ids) (Some "")); [reflexivity|].
  vm_compute. reflexivity.
Defined.

(** ** Job status *)

Lemma job_status_same_world (q : option string) (w : World) :
  (job_status q w).1 = w.
Proof. unfold job_status. repeat case_match; done. Qed.

(** C10. A job-status request changes nothing: whatever the state and the
    parameter, the world after the request (balance, pending, completed and
    cancelled jobs, timers) is the world before it. *)
Theorem job_status_read_only (q : option string) (w : World) :
  (job_status q w).1 = w ∧
  ∃ r, step (GetJobStatus q) w = Some (w, Some r).
Proof.
  pose proof (job_status_same_world q w) as H.
  split; [done|]. simpl. destruct (job_status q w) as [w' r]. simpl in H. subst. eauto.
Qed.

(** ** The pending jobs *)

Lemma findIndex_pending (id : string) (t : Tracker) :
  findIndex (is_job id) (jobQueue t) ≠ -1 ↔ in_pending id t.
Proof.
  unfold in_pending, pending_ids. rewrite findIndex_none. split.
  - intros H. destruct (decide (id ∈ jobId <$> jobQueue t)) as [|Hn]; [done|].
    exfalso. apply H. intros j Hj. unfold is_job. apply bool_decide_eq_false.
    intros <-. apply Hn, list_elem_of_fmap. eauto.
  - intros (j & -> & Hj)%list_elem_of_fmap H. specialize (H j Hj). unfold is_job in H.
    by apply bool_decide_eq_false in H.
Qed.

(** The job that [findIndex] designates: the first pending job with the ID. *)
Lemma findIndex_first_job (id : string) (t : Tracker) :
  in_pending id t →
  ∃ (n : nat) (job : Job),
    findIndex (is_job id) (jobQueue t) = Z.of_nat n ∧
    jobQueue t !! n = Some job ∧ jobId job = id ∧
    ∀ j, j ∈ take n (jobQueue t) → jobId j ≠ id.
Proof.
  intros Hin%findIndex_pending.
  destruct (findIndex_lookup _ _ Hin) as (job & Hjob & Hid & Hbefore).
  pose proof (findIndex_range (is_job id) (jobQueue t)).
  exists (Z.to_nat (findIndex (is_job id) (jobQueue t))), job.
  split_and!; [lia|done|by apply bool_decide_eq_true in Hid|].
  intros j Hj. specialize (Hbefore j Hj). by apply bool_decide_eq_false in Hbefore.
Qed.

(** Removing the designated job removes the ID from the pending collection
    when no other pending job carries it. *)
Lemma not_pending_after_delete (id : string) (n : nat) (job : Job) (q : list Job) :
  NoDup (jobId <$> q) → q !! n = Some job → jobId job = id →
  id ∉ jobId <$> delete n q.
Proof.
  intros Hnd Hjob <-. rewrite list_fmap_delete.
  apply NoDup_delete_lookup; [done|]. by rewrite list_lookup_fmap, Hjob.
Qed.

Lemma generate_four_fulfilled (p : string) (c1 c2 c3 c4 : Gemini.Call)
    (images : list ImageResponse) :
  generate_four p c1 c2 c3 c4 = Some images ↔
  ∃ i1 i2 i3 i4,
    Gemini.generateGeminiImage p c1 = Returns i1 ∧
    Gemini.generateGeminiImage p c2 = Returns i2 ∧
    Gemini.generateGeminiImage p c3 = Returns i3 ∧
    Gemini.generateGeminiImage p c4 = Returns i4 ∧
    images = [i1; i2; i3; i4].
Proof.
  unfold generate_four. simpl. split.
  - intros H. repeat case_match; simplify_eq. by eexists _, _, _, _.
  - intros (i1 & i2 & i3 & i4 & -> & -> & -> & -> & ->). done.
Qed.

Lemma generate_four_rejected (p : string) (c1 c2 c3 c4 : Gemini.Call) :
  generate_four p c1 c2 c3 c4 = None ↔
  ∃ c e, c ∈ [c1; c2; c3; c4] ∧ Gemini.generateGeminiImage p c = Throws e.
Proof.
  unfold generate_four. simpl. split.
  - intros H. repeat case_match; simplify_eq;
      eexists _, _; (split; [|eassumption]); set_solver.
  - intros (c & e & Hc & He).
    repeat (apply elem_of_cons in Hc as [->|Hc]); [..|by apply elem_of_nil in Hc];
      rewrite ?He; repeat case_match; done.
Qed.

(** When [generateJobId] returned the same ID for two jobs, [findIndex]
    designates the older one whichever callback runs. The callback of the
    second job removes the entry of the first, and the second job, whose four
    images were just stored, is still pending. The other way round, the
    first job, cancelled after its callback started, finds the entry of the
    second job when its images arrive: they are stored and a credit is taken,
    for a job that was cancelled. *)
Lemma repeated_id_callback_removes_other_job :
  (∃ w w',
     run Sample.second_of_repeated_id_starts (initial ["4fzyo82mvyr"; "4fzyo82mvyr"])
       = Some w ∧
     awaiting w !! 0%nat
       = Some {| captured_jobId := "4fzyo82mvyr"; captured_prompt := "dog" |} ∧
     jobQueue (tracker w)
       = [ {| jobId := "4fzyo82mvyr"; prompt := "cat"; timeoutId := 0 |};
           {| jobId := "4fzyo82mvyr"; prompt := "dog"; timeoutId := 1 |} ] ∧
     step (GenerationSettles 0 Sample.call Sample.call Sample.call Sample.call) w
       = Some (w', None) ∧
     jobQueue (tracker w')
       = [ {| jobId := "4fzyo82mvyr"; prompt := "dog"; timeoutId := 1 |} ] ∧
     in_pending "4fzyo82mvyr" (tracker w')) ∧
  (∃ w,
     run Sample.cancelled_job_of_repeated_id_settles
         (initial ["4fzyo82mvyr"; "4fzyo82mvyr"]) = Some w ∧
     in_cancelled "4fzyo82mvyr" (tracker w) ∧
     completedJobs (tracker w) !! "4fzyo82mvyr"
       = Some (replicate 4 (Gemini.sticker "cat" "data:image/png;base64,UE5HIQ")) ∧
     credits (tracker w) = 9) ∧
  ¬ callback_finishes_its_job.
Proof.
  split; [|split].
  - eexists. eexists. split; [vm_compute; reflexivity|].
    split; [reflexivity|]. split; [reflexivity|].
    split; [vm_compute; reflexivity|]. split; [reflexivity|].
    apply list_elem_of_here.
  - eexists. split; [vm_compute; reflexivity|].
    split; [apply list_elem_of_here|]. split; [vm_compute; reflexivity|]. reflexivity.
  - intros H.
    destruct (run Sample.second_of_repeated_id_starts
                (initial ["4fzyo82mvyr"; "4fzyo82mvyr"])) as [w|] eqn:Hrun;
      [|vm_compute in Hrun; discriminate Hrun].
    destruct (step (GenerationSettles 0 Sample.call Sample.call Sample.call Sample.call) w)
      as [[w' r]|] eqn:Hstep;
      [|vm_compute in Hrun; simplify_eq; vm_compute in Hstep; discriminate Hstep].
    assert (r = None) as ->
      by (vm_compute in Hrun; simplify_eq; vm_compute in Hstep; by simplify_eq).
    destruct (H w w' 0%nat {| captured_jobId := "4fzyo82mvyr"; captured_prompt := "dog" |}
                Sample.call Sample.call Sample.call Sample.call
                (replicate 4 (Gemini.sticker "dog" "data:image/png;base64,UE5HIQ")))
      as (Hgone & _).
    + exists ["4fzyo82mvyr"; "4fzyo82mvyr"], Sample.second_of_repeated_id_starts.
      split; [reflexivity|exact Hrun].
    + vm_compute in Hrun. by simplify_eq.
    + reflexivity.
    + vm_compute in Hrun. simplify_eq. apply list_elem_of_here.
    + exact Hstep.
    + apply Hgone. vm_compute in Hrun. simplify_eq. vm_compute in Hstep. simplify_eq.
      apply list_elem_of_here.
Qed.

(** C1, amended. When the four calls of a started callback settle:
    - if all four succeeded and the job ID is pending, the first pending job
      with that ID is removed (so the ID is no longer pending when no other
      pending job carries it), the array of the four results is stored under
      the ID in the completed jobs, and the balance goes down by exactly 1;
    - if all four succeeded and the ID is not pending, the tracker is
      unchanged;
    - if one of the calls threw, the tracker is unchanged: the job stays
      where it was, nothing is completed, the balance is the same. *)
Theorem timeout_callback_settles (w : World) (k : nat) (c : Closure)
    (c1 c2 c3 c4 : Gemini.Call) :
  awaiting w !! k = Some c →
  ∃ w' : World,
    step (GenerationSettles k c1 c2 c3 c4) w = Some (w', None) ∧
    timers w' = timers w ∧
    let id := captured_jobId c in
    let p := captured_prompt c in
    let t := tracker w in
    let t' := tracker w' in
    (∀ i1 i2 i3 i4,
       Gemini.generateGeminiImage p c1 = Returns i1 →
       Gemini.generateGeminiImage p c2 = Returns i2 →
       Gemini.generateGeminiImage p c3 = Returns i3 →
       Gemini.generateGeminiImage p c4 = Returns i4 →
       (in_pending id t →
          (∃ (n : nat) (job : Job),
             jobQueue t !! n = Some job ∧ jobId job = id ∧
             (∀ j, j ∈ take n (jobQueue t) → jobId j ≠ id) ∧
             jobQueue t' = delete n (jobQueue t)) ∧
          (NoDup (pending_ids t) → ¬ in_pending id t') ∧
          completedJobs t' = <[id := [i1; i2; i3; i4]]> (completedJobs t) ∧
          cancelledJobs t' = cancelledJobs t ∧
          credits t' = credits t - 1) ∧
       (¬ in_pending id t → t' = t)) ∧
    (∀ c' e, c' ∈ [c1; c2; c3; c4] →
       Gemini.generateGeminiImage p c' = Throws e → t' = t).
Proof.
  intros Hk. eexists. split; [simpl; rewrite Hk; reflexivity|].
  split; [done|]. simpl. unfold timeout_callback, finish_job. split.
  - intros i1 i2 i3 i4 H1 H2 H3 H4.
    assert (generate_four (captured_prompt c) c1 c2 c3 c4 = Some [i1; i2; i3; i4])
      as -> by (apply generate_four_fulfilled; by eexists _, _, _, _).
    split.
    + intros Hin. pose proof Hin as Hidx%findIndex_pending.
      rewrite decide_True by done. simpl.
      destruct (findIndex_first_job _ _ Hin) as (n & job & Hn & Hjob & Hid & Hbefore).
      unfold splice_one. rewrite Hn, Nat2Z.id. split_and!; try done.
      * by exists n, job.
      * intros Hnd. unfold in_pending, pending_ids. simpl.
        by eapply not_pending_after_delete.
    + intros Hout. rewrite decide_False; [done|]. by rewrite findIndex_pending.
  - intros c' e Hc' He.
    assert (generate_four (captured_prompt c) c1 c2 c3 c4 = None)
      as -> by (apply generate_four_rejected; eauto).
    done.
Qed.

Lemma timeout_callback_settles_witness :
  ∃ w w' : World,
    run [GetQueueImageGeneration (Some "cat"); TimeoutElapses 0] (initial Sample.ids)
      = Some w ∧
    awaiting w !! 0%nat
      = Some {| captured_jobId := "4fzyo82mvyr"; captured_prompt := "cat" |} ∧
    step (GenerationSettles 0 Sample.call Sample.call Sample.call_unprocessed Sample.call) w
      = Some (w', None) ∧
    credits (tracker w') = 9 ∧
    ¬ in_pending "4fzyo82mvyr" (tracker w').
Proof.
  eexists.
  match goal with |- ∃ w', run ?es ?i = Some ?W ∧ _ =>
    let r := eval vm_compute in (run es i) in
    match r with Some ?v => unify W v end
  end.
  match goal with |- ∃ w', _ = Some ?W ∧ _ => set (w := W) end.
  destruct (timeout_callback_settles w 0
              {| captured_jobId := "4fzyo82mvyr"; captured_prompt := "cat" |}
              Sample.call Sample.call Sample.call_unprocessed Sample.call)
    as (w' & Hstep & _ & Hok & _); [reflexivity|].
  exists w'. split; [vm_compute; reflexivity|]. split; [reflexivity|].
  split; [exact Hstep|].
  destruct (Hok _ _ _ _ eq_refl eq_refl eq_refl eq_refl) as [Hpending _].
  destruct Hpending as (_ & Hgone & _ & _ & Hcredits).
  { unfold in_pending. vm_compute. apply list_elem_of_here. }
  split.
  - rewrite Hcredits. reflexivity.
  - apply Hgone. vm_compute. apply NoDup_singleton.
Defined.

(** ** Cancellation *)

(** A cancel request with an empty [jobId], which is not a pending ID, is
    answered with 400. *)
Lemma cancel_empty_jobId :
  ¬ in_pending "" (tracker (initial [])) ∧
  cancel_job (Some "") (initial [])
  = (initial [], send 400 (Text "Missing jobId parameter.")) ∧
  ¬ cancel_not_pending_is_not_found.
Proof.
  assert (¬ in_pending "" (tracker (initial []))) as Hout.
  { unfold in_pending. simpl. apply not_elem_of_nil. }
  split; [done|]. split; [reflexivity|].
  intros H. specialize (H (initial []) (Some "")). simpl in H.
  assert (reachable (initial [])) as Hr by (by exists [], []).
  specialize (H Hr Hout). discriminate.
Qed.

(** The answers of a cancel request that carries an ID, with the world that
    a successful cancellation leaves behind written out. *)
Lemma cancel_job_not_pending (q : option string) (w : World) :
  missing q = false → ¬ in_pending (param q) (tracker w) →
  cancel_job q w = (w, send 404 (Text "Job not found.")).
Proof.
  intros Hq Hout. unfold cancel_job. rewrite Hq.
  rewrite decide_False; [done|]. by rewrite findIndex_pending.
Qed.

Lemma cancel_job_pending (q : option string) (w : World) :
  missing q = false → in_pending (param q) (tracker w) →
  ∃ (n : nat) (job : Job),
    jobQueue (tracker w) !! n = Some job ∧ jobId job = param q ∧
    (∀ j, j ∈ take n (jobQueue (tracker w)) → jobId j ≠ param q) ∧
    cancel_job q w
    = (clearTimeout (timeoutId job)
         (with_tracker
            (with_jobQueue (delete n (jobQueue (tracker w)))
               (with_cancelledJobs
                  (push {| cancelledId := param q |} (cancelledJobs (tracker w)))
                  (tracker w))) w),
       send 200 (Text "Job successfully cancelled.")).
Proof.
  intros Hq Hin. pose proof Hin as Hidx%findIndex_pending.
  destruct (findIndex_first_job _ _ Hin) as (n & job & Hn & Hjob & Hid & Hbefore).
  exists n, job. do 3 (split; [done|]).
  unfold cancel_job. rewrite Hq, decide_True by done. simpl.
  unfold splice_one. rewrite Hn, Nat2Z.id, Hjob. reflexivity.
Qed.

(** C6, amended. For a cancel request with a non-empty [jobId]:
    - if the ID is pending, the first pending job with that ID is removed from
      the pending jobs (so the ID is no longer pending when no other job
      carries it, and a second cancel request for it is then answered with
      404), its timeout is cleared, the ID is added to the cancelled jobs, the
      answer is 200, and the balance and the completed jobs are unchanged;
    - if the ID is not pending (completed, cancelled or unknown), the answer
      is 404 and nothing changes.
    A cancel request without a [jobId], or with an empty one, is answered
    with 400 and changes nothing. *)
Theorem cancel_job_outcome (w : World) (q : option string) :
  (missing q = true →
   cancel_job q w = (w, send 400 (Text "Missing jobId parameter."))) ∧
  (missing q = false →
   let id := param q in
   let t := tracker w in
   (in_pending id t →
    ∃ (n : nat) (job : Job) (w' : World),
      jobQueue t !! n = Some job ∧ jobId job = id ∧
      (∀ j, j ∈ take n (jobQueue t) → jobId j ≠ id) ∧
      cancel_job q w = (w', send 200 (Text "Job successfully cancelled.")) ∧
      jobQueue (tracker w') = delete n (jobQueue t) ∧
      cancelledJobs (tracker w') = push {| cancelledId := id |} (cancelledJobs t) ∧
      in_cancelled id (tracker w') ∧
      completedJobs (tracker w') = completedJobs t ∧
      credits (tracker w') = credits t ∧
      timers w' = delete (timeoutId job) (timers w) ∧
      step (TimeoutElapses (timeoutId job)) w' = None ∧
      awaiting w' = awaiting w ∧ random w' = random w ∧
      (NoDup (pending_ids t) →
       ¬ in_pending id (tracker w') ∧
       cancel_job q w' = (w', send 404 (Text "Job not found.")))) ∧
   (¬ in_pending id t →
    cancel_job q w = (w, send 404 (Text "Job not found.")))).
Proof.
  split.
  - intros Hq. unfold cancel_job. by rewrite Hq.
  - intros Hq. simpl. split; [|by apply cancel_job_not_pending].
    intros Hin.
    destruct (cancel_job_pending q w Hq Hin) as (n & job & Hjob & Hid & Hbefore & Hcancel).
    eexists n, job, _. do 3 (split; [done|]). split; [exact Hcancel|].
    do 2 (split; [reflexivity|]).
    split.
    { unfold in_cancelled, cancelled_ids. apply list_elem_of_fmap.
      exists {| cancelledId := param q |}. split; [done|].
      simpl. unfold push. apply elem_of_app. right. apply list_elem_of_here. }
    do 3 (split; [reflexivity|]).
    split. { simpl. by rewrite lookup_delete_eq. }
    do 2 (split; [reflexivity|]).
    intros Hnd.
    assert (∀ w', jobQueue (tracker w') = delete n (jobQueue (tracker w)) →
                  ¬ in_pending (param q) (tracker w')) as Hgone.
    { intros w' Hq'. unfold in_pending, pending_ids. rewrite Hq'.
      by eapply not_pending_after_delete. }
    split; [by apply Hgone|]. apply cancel_job_not_pending; [done|]. by apply Hgone.
Qed.

Lemma cancel_job_outcome_witness :
  ∃ w w' : World,
    run [GetQueueImageGeneration (Some "dog")] (initial Sample.ids) = Some w ∧
    missing (Some "4fzyo82mvyr") = false ∧
    in_pending "4fzyo82mvyr" (tracker w) ∧
    cancel_job (Some "4fzyo82mvyr") w
    = (w', send 200 (Text "Job successfully cancelled.")) ∧
    credits (tracker w') = 10 ∧
    cancel_job (Some "4fzyo82mvyr") w' = (w', send 404 (Text "Job not found.")).
Proof.
  eexists.
  match goal with |- ∃ w', run ?es ?i = Some ?W ∧ _ =>
    let r := eval vm_compute in (run es i) in
    match r with Some ?v => unify W v end
  end.
  match goal with |- ∃ w', _ = Some ?W ∧ _ => set (w := W) end.
  assert (in_pending "4fzyo82mvyr" (tracker w)) as Hin.
  { unfold in_pending. vm_compute. apply list_elem_of_here. }
  destruct (cancel_job_outcome w (Some "4fzyo82mvyr")) as [_ Hpresent].
  destruct (Hpresent eq_refl) as [Hpending _].
  destruct (Hpending Hin)
    as (n & job & w' & _ & _ & _ & Hcancel & _ & _ & _ & _ & Hcredits & _ & _ & _ & _ & Htwice).
  exists w'. split; [vm_compute; reflexivity|]. split; [reflexivity|].
  split; [exact Hin|]. split; [exact Hcancel|]. split; [by rewrite Hcredits|].
  apply Htwice. vm_compute. apply NoDup_singleton.
Defined.

(** ** Queuing *)

(** The three cases of a queue request, with the world that an accepted
    request leaves behind written out. *)
Lemma queue_image_generation_unfold (q : option string) (w : World) :
  queue_image_generation q w
  = if decide (credits (tracker w) <= 0) then
      Some (w, send 403 (Text "Not enough credits required to generate images."))
    else if missing q then Some (w, send 400 (Text "Missing prompt parameter."))
    else
      match random w with
      | [] => None
      | id :: rest =>
          Some ({| tracker :=
                     with_jobQueue
                       (push {| jobId := id; prompt := param q;
                                timeoutId := nextTimeout w |}
                          (jobQueue (tracker w)))
                       (tracker w);
                   timers := <[nextTimeout w :=
                                 {| captured_jobId := id; captured_prompt := param q |}]>
                               (timers w);
                   awaiting := awaiting w;
                   nextTimeout := S (nextTimeout w);
                   random := rest |},
                send 200 (JobIdBody id))
      end.
Proof.
  unfold queue_image_generation, generateJobId, setTimeout.
  destruct (decide (credits (tracker w) <= 0)); [done|].
  destruct (missing q); [done|]. by destruct (random w).
Qed.

(** A job is accepted only while the balance is positive. *)
Lemma queue_accepted_positive (q : option string) (w w' : World) (id : string) :
  queue_image_generation q w = Some (w', send 200 (JobIdBody id)) →
  0 < credits (tracker w).
Proof.
  rewrite queue_image_generation_unfold. repeat case_match; intros; simplify_eq; lia.
Qed.

(** No event takes more than one credit. *)
Lemma credits_drop_at_most_one (e : Event) (w w' : World) (r : option Response) :
  step e w = Some (w', r) → credits (tracker w) - 1 <= credits (tracker w').
Proof.
  destruct e as [| |q|q|q|handle|k c1 c2 c3 c4]; simpl; intros Hstep.
  - simplify_eq. lia.
  - simplify_eq. simpl. unfold CREDITS_IN_BUNDLE. lia.
  - rewrite queue_image_generation_unfold in Hstep.
    repeat case_match; simplify_eq; simpl; lia.
  - pose proof (job_status_same_world q w) as Hsame.
    destruct (job_status q w). simpl in Hsame. simplify_eq. lia.
  - unfold cancel_job in Hstep. repeat case_match; simplify_eq; simpl; lia.
  - destruct (timers w !! handle); simplify_eq. simpl. lia.
  - destruct (awaiting w !! k); simplify_eq. simpl.
    unfold timeout_callback, finish_job. repeat case_match; simpl; lia.
Qed.

(** ** Exclusive membership *)

Section exclusive.
Implicit Types (w : World) (t : Tracker) (id : string).

Lemma ids_apart_initial (rnd : list string) : NoDup rnd → ids_apart (initial rnd).
Proof.
  intros Hnd. split; unfold in_completed, in_cancelled; cbn [initial tracker completedJobs].
  - done.
  - intros id Hc. by apply lookup_empty_is_Some in Hc.
  - intros id Hin. by apply elem_of_nil in Hin.
  - intros id Hc. by apply lookup_empty_is_Some in Hc.
Qed.

(** Steps that move no ID between the collections. *)
Lemma ids_apart_same w w' :
  pending_ids (tracker w') ++ random w' = pending_ids (tracker w) ++ random w →
  completedJobs (tracker w') = completedJobs (tracker w) →
  cancelledJobs (tracker w') = cancelledJobs (tracker w) →
  ids_apart w → ids_apart w'.
Proof.
  intros Hids Hcompleted Hcancelled [H1 H2 H3 H4].
  split; unfold in_completed, in_cancelled, cancelled_ids in *;
    rewrite ?Hids, ?Hcompleted, ?Hcancelled; done.
Qed.

Lemma delete_app_sublist (n : nat) (l r : list string) :
  delete n l ++ r `sublist_of` l ++ r.
Proof. apply sublist_app; [apply sublist_delete|done]. Qed.

Lemma not_elem_of_delete_app (n : nat) (l r : list string) id :
  id ∉ l ++ r → id ∉ delete n l ++ r.
Proof.
  intros Hout Hin. apply Hout. eapply elem_of_sublist; [done|].
  apply delete_app_sublist.
Qed.

Lemma removed_not_elem_of (n : nat) (l r : list string) id :
  NoDup (l ++ r) → l !! n = Some id → id ∉ delete n l ++ r.
Proof.
  intros [Hl [Hdisj Hr]]%NoDup_app Hn [Hin|Hin]%elem_of_app.
  - by eapply (NoDup_delete_lookup l n id).
  - eapply Hdisj; [|done]. by eapply list_elem_of_lookup_2.
Qed.

(** The callback moves its job from pending to completed. *)
Lemma ids_apart_finish_job w id images :
  ids_apart w → ids_apart (with_tracker (finish_job id images (tracker w)) w).
Proof.
  intros Hinv. unfold finish_job. case_decide as Hidx; [|by destruct w].
  apply findIndex_pending in Hidx.
  destruct (findIndex_first_job _ _ Hidx) as (n & job & Hn & Hjob & Hid & _).
  destruct Hinv as [H1 H2 H3 H4].
  assert (pending_ids (tracker w) !! n = Some id) as Hlook.
  { unfold pending_ids. by rewrite list_lookup_fmap, Hjob, <- Hid. }
  unfold splice_one. rewrite Hn, Nat2Z.id.
  split; unfold in_completed, in_cancelled, pending_ids, cancelled_ids in *; simpl.
  - rewrite list_fmap_delete. eapply sublist_NoDup; [done|apply delete_app_sublist].
  - intros id' Hc. rewrite list_fmap_delete. destruct (decide (id' = id)) as [->|Hne].
    + by apply removed_not_elem_of.
    + rewrite lookup_insert_ne in Hc by done. by apply not_elem_of_delete_app, H2.
  - intros id' Hc. rewrite list_fmap_delete. by apply not_elem_of_delete_app, H3.
  - intros id' Hc Hcancelled. destruct (decide (id' = id)) as [->|Hne].
    + apply (H3 id Hcancelled), elem_of_app. left. by eapply list_elem_of_lookup_2.
    + rewrite lookup_insert_ne in Hc by done. by eapply H4.
Qed.

(** Cancellation moves its job from pending to cancelled. *)
Lemma ids_apart_cancel_job w q :
  ids_apart w → ids_apart (cancel_job q w).1.
Proof.
  intros Hinv. destruct (missing q) eqn:Hq.
  { unfold cancel_job. by rewrite Hq. }
  destruct (decide (param q ∈ pending_ids (tracker w))) as [Hin|Hout];
    [|by rewrite (cancel_job_not_pending q w Hq Hout)].
  destruct (cancel_job_pending q w Hq Hin) as (n & job & Hjob & Hid & _ & ->).
  destruct Hinv as [H1 H2 H3 H4].
  assert (pending_ids (tracker w) !! n = Some (param q)) as Hlook.
  { unfold pending_ids. by rewrite list_lookup_fmap, Hjob, <- Hid. }
  split; unfold in_completed, in_cancelled, pending_ids, cancelled_ids in *;
    cbn [fst clearTimeout with_timers with_tracker with_jobQueue with_cancelledJobs
         tracker random jobQueue completedJobs cancelledJobs];
    rewrite ?list_fmap_delete.
  - eapply sublist_NoDup; [done|apply delete_app_sublist].
  - intros id' Hc. by apply not_elem_of_delete_app, H2.
  - intros id' Hc. unfold push in Hc. rewrite fmap_app in Hc.
    apply elem_of_app in Hc as [Hc|Hc].
    + by apply not_elem_of_delete_app, H3.
    + apply list_elem_of_singleton in Hc as ->. by apply removed_not_elem_of.
  - intros id' Hc Hcancel. unfold push in Hcancel. rewrite fmap_app in Hcancel.
    apply elem_of_app in Hcancel as [Hcancel|Hcancel]; [by eapply H4|].
    apply list_elem_of_singleton in Hcancel as ->.
    apply (H2 _ Hc), elem_of_app. left. by eapply list_elem_of_lookup_2.
Qed.

Lemma ids_apart_step (e : Event) w w' (r : option Response) :
  ids_apart w → step e w = Some (w', r) → ids_apart w'.
Proof.
  intros Hinv Hstep. destruct e as [| |q|q|q|handle|k c1 c2 c3 c4]; simpl in Hstep.
  - by simplify_eq.
  - simplify_eq. by apply (ids_apart_same w).
  - rewrite queue_image_generation_unfold in Hstep.
    destruct (decide (credits (tracker w) <= 0)); [by simplify_eq|].
    destruct (missing q); [by simplify_eq|].
    destruct (random w) as [|id rest] eqn:Hrandom; simplify_eq.
    apply (ids_apart_same w); [|done..]. simpl.
    unfold pending_ids, push. simpl. by rewrite fmap_app, <- app_assoc, Hrandom.
  - pose proof (job_status_same_world q w) as Hsame.
    destruct (job_status q w). simpl in Hsame. by simplify_eq.
  - pose proof (ids_apart_cancel_job w q Hinv) as Hcancel.
    destruct (cancel_job q w). by simplify_eq.
  - destruct (timers w !! handle); simplify_eq. by apply (ids_apart_same w).
  - destruct (awaiting w !! k) as [c|]; simplify_eq.
    unfold timeout_callback. destruct (generate_four _ _ _ _ _) as [images|].
    + pose proof (ids_apart_finish_job w (captured_jobId c) images Hinv) as Hfin.
      revert Hfin. by apply ids_apart_same.
    + by apply (ids_apart_same w).
Qed.

Lemma ids_apart_run (es : list Event) w w' :
  ids_apart w → run es w = Some w' → ids_apart w'.
Proof.
  revert w. induction es as [|e es IH]; intros w Hinv Hrun; simpl in Hrun.
  - by simplify_eq.
  - destruct (step e w) as [[w1 r]|] eqn:Hstep; [|done].
    eapply IH; [|done]. by eapply ids_apart_step.
Qed.

Lemma ids_apart_exclusive w id : ids_apart w → exclusive id (tracker w).
Proof.
  intros [H1 H2 H3 H4]. split_and!.
  - intros [Hp Hc]. apply (H2 id Hc), elem_of_app. by left.
  - intros [Hp Hc]. apply (H3 id Hc), elem_of_app. by left.
  - intros [Hc Hx]. by eapply H4.
Qed.

End exclusive.

(** When [generateJobId] returns the same ID for two requests and the ID is
    then cancelled, only the first of the two jobs leaves the pending jobs:
    the ID is pending and cancelled at once. *)
Lemma repeated_id_pending_and_cancelled :
  ∃ w,
    run Sample.cancel_repeated_id (initial ["4fzyo82mvyr"; "4fzyo82mvyr"]) = Some w ∧
    in_pending "4fzyo82mvyr" (tracker w) ∧
    in_cancelled "4fzyo82mvyr" (tracker w) ∧
    ¬ always_exclusive.
Proof.
  eexists. split; [vm_compute; reflexivity|].
  match goal with |- in_pending _ (tracker ?W) ∧ _ => set (w := W) end.
  assert (in_pending "4fzyo82mvyr" (tracker w)) as Hp by apply list_elem_of_here.
  assert (in_cancelled "4fzyo82mvyr" (tracker w)) as Hc by apply list_elem_of_here.
  split; [done|]. split; [done|].
  intros H. destruct (H w "4fzyo82mvyr") as (_ & Hpc & _); [|by apply Hpc].
  exists ["4fzyo82mvyr"; "4fzyo82mvyr"], Sample.cancel_repeated_id.
  split; [reflexivity|]. vm_compute. reflexivity.
Qed.

(** C2, amended. In every state reached by a sequence of requests, elapsing
    timeouts and settling generations during which [generateJobId] never
    returns the same ID twice, each job ID is in at most one of the three
    collections. *)
Theorem exclusive_while_ids_differ (rnd : list string) (es : list Event)
    (w : World) (id : string) :
  NoDup rnd → run es (initial rnd) = Some w → exclusive id (tracker w).
Proof.
  intros Hnd Hrun. apply ids_apart_exclusive.
  eapply ids_apart_run; [|done]. by apply ids_apart_initial.
Qed.

Lemma exclusive_while_ids_differ_witness :
  ∃ w,
    run Sample.complete_and_cancel (initial Sample.ids) = Some w ∧
    NoDup Sample.ids ∧
    exclusive "4fzyo82mvyr" (tracker w).
Proof.
  eexists. split; [vm_compute; reflexivity|].
  assert (NoDup Sample.ids) as Hnd.
  { apply (bool_decide_unpack _). vm_compute. reflexivity. }
  split; [exact Hnd|].
  apply (exclusive_while_ids_differ Sample.ids Sample.complete_and_cancel); [exact Hnd|].
  vm_compute. reflexivity.
Defined.

(** ** The balance *)

(** C7. The balance goes below 0: the credits check is made when a job is
    queued and the credit is taken when it completes, so eleven jobs queued
    while the balance is 10 are all accepted (with eleven different IDs of
    the generated shape), and once the eleven have completed the balance
    is -1. *)
Theorem balance_negative_after_eleven_jobs :
  NoDup Sample.ids ∧
  forallb generated_id Sample.ids = true ∧
  ∃ w, run (Sample.complete_jobs 11) (initial Sample.ids) = Some w ∧
       credits (tracker w) = -1.
Proof.
  split. { apply (bool_decide_unpack _). vm_compute. reflexivity. }
  split; [reflexivity|].
  eexists. split; [vm_compute; reflexivity|]. reflexivity.
Qed.

(** ** Status of inherited names *)

(** For an ID that is not a name of [Object.prototype], the status follows
    the collections, in the order completed, pending, cancelled. *)
Lemma job_status_by_membership (w : World) (id : string) :
  id ≠ "" → id ∉ Object_prototype →
  let t := tracker w in
  (∀ images, completedJobs t !! id = Some images →
     job_status (Some id) w
     = (w, send 200 (StatusBody "completed" (Some (OwnImages images)) (Some (credits t))))) ∧
  (¬ in_completed id t → in_pending id t →
     job_status (Some id) w = (w, send 200 (StatusBody "processing" None None))) ∧
  (¬ in_completed id t → ¬ in_pending id t → in_cancelled id t →
     job_status (Some id) w = (w, send 200 (StatusBody "cancelled" None None))) ∧
  (¬ in_completed id t → ¬ in_pending id t → ¬ in_cancelled id t →
     job_status (Some id) w = (w, send 404 (Text "Job not found."))).
Proof.
  intros Hid Hproto. simpl.
  assert (missing (Some id) = false) as Hq by (by apply bool_decide_eq_false).
  assert (∀ c : list Cancelled,
            some (is_cancelled id) c = bool_decide (id ∈ cancelledId <$> c)) as Hsome.
  { intros c. apply eq_true_iff_eq.
    rewrite some_true, bool_decide_eq_true, list_elem_of_fmap. split.
    - intros (x & Hx & Heq). apply bool_decide_eq_true in Heq. eauto.
    - intros (x & -> & Hx). exists x. split; [done|]. by apply bool_decide_eq_true. }
  unfold job_status, lookup_completed. rewrite Hq. simpl. split_and!.
  - intros images ->. done.
  - intros Hc Hp. apply eq_None_not_Some in Hc. rewrite Hc, decide_False by done.
    rewrite some_findIndex, bool_decide_eq_true_2; [done|]. by apply findIndex_pending.
  - intros Hc Hp Hx. apply eq_None_not_Some in Hc. rewrite Hc, decide_False by done.
    rewrite some_findIndex, bool_decide_eq_false_2 by (by rewrite findIndex_pending).
    by rewrite Hsome, bool_decide_eq_true_2.
  - intros Hc Hp Hx. apply eq_None_not_Some in Hc. rewrite Hc, decide_False by done.
    rewrite some_findIndex, bool_decide_eq_false_2 by (by rewrite findIndex_pending).
    by rewrite Hsome, bool_decide_eq_false_2.
Qed.

(** C5. The status of an ID follows the three collections except for the
    names that [completedJobs] inherits from [Object.prototype]: in the
    initial state, where no job was ever issued and ["constructor"] is in
    none of the collections, the request for ["constructor"] is answered
    with 200 and the status [completed], the inherited member standing where
    the four images should be, instead of 404. *)
Theorem job_status_inherited_name :
  reachable (initial []) ∧
  ¬ in_pending "constructor" (tracker (initial [])) ∧
  ¬ in_completed "constructor" (tracker (initial [])) ∧
  ¬ in_cancelled "constructor" (tracker (initial [])) ∧
  job_status (Some "constructor") (initial [])
  = (initial [],
     send 200 (StatusBody "completed" (Some (Inherited "constructor")) (Some 10))).
Proof.
  split; [by exists [], []|].
  split; [apply not_elem_of_nil|].
  split; [unfold in_completed; cbn [initial tracker completedJobs]; apply lookup_empty_is_Some|].
  split; [apply not_elem_of_nil|]. reflexivity.
Qed.

(** * Further properties of the router *)

(** ** The adapter's failures *)

Lemma first_inline_image_none (ps : list Gemini.Part) :
  Gemini.first_inline_image ps = None ↔ ∀ part, part ∈ ps → Gemini.inline_image part = None.
Proof.
  induction ps as [|part ps IH]; simpl.
  - split; [|done]. intros _ part Hin. by apply elem_of_nil in Hin.
  - destruct (Gemini.inline_image part) as [d|] eqn:Hd.
    + split; [done|]. intros H. specialize (H part (list_elem_of_here _ _)). congruence.
    + rewrite IH. split.
      * intros H q [->|Hq]%elem_of_cons; [done|]. by apply H.
      * intros H q Hq. apply H. by right.
Qed.

(** X1. [generateGeminiImage] throws in four situations and no other: the
    request to the service was rejected (the error is passed on); the answer
    has no candidate; the first candidate has no content or no parts; no part
    of the first candidate carries a non-empty inline payload. A background
    removal that throws is never one of them. *)
Theorem generateGeminiImage_throws (p : string) (c : Gemini.Call) (e : string) :
  Gemini.generateGeminiImage p c = Throws e ↔
  Gemini.generateContent c = Throws e ∨
  ∃ response, Gemini.generateContent c = Returns response ∧
    (((Gemini.candidates response = None ∨ Gemini.candidates response = Some []) ∧
      e = "No candidates returned from Gemini API") ∨
     ∃ candidate others, Gemini.candidates response = Some (candidate :: others) ∧
       (((Gemini.content candidate = None ∨
          ∃ cont, Gemini.content candidate = Some cont ∧ Gemini.parts cont = None) ∧
         e = "Invalid candidate structure from Gemini API") ∨
        ∃ cont ps, Gemini.content candidate = Some cont ∧ Gemini.parts cont = Some ps ∧
          (∀ part, part ∈ ps → Gemini.inline_image part = None) ∧
          e = "No image generated")).
Proof.
  unfold Gemini.generateGeminiImage.
  destruct (Gemini.generateContent c) as [response|e0] eqn:Hresp.
  2:{ split; [intros ?; simplify_eq; by left|]. intros [?|(? & ? & _)]; by simplify_eq. }
  destruct (Gemini.candidates response) as [[|candidate others]|] eqn:Hcands.
  - split.
    + intros ?; simplify_eq. right. exists response. split; [done|]. left. eauto.
    + intros [?|(r & ? & [[_ ->]|(? & ? & ? & _)])]; by simplify_eq.
  - destruct (Gemini.content candidate) as [cont|] eqn:Hcont.
    2:{ split.
        - intros ?; simplify_eq. right. exists response. split; [done|]. right.
          exists candidate, others. split; [done|]. left. eauto.
        - intros [?|(r & ? & [[[?|?] _]|(? & ? & ? & [[_ ->]|(? & ? & ? & _)])])];
            by simplify_eq. }
    destruct (Gemini.parts cont) as [ps|] eqn:Hparts.
    2:{ split.
        - intros ?; simplify_eq. right. exists response. split; [done|]. right.
          exists candidate, others. split; [done|]. left. split; [|done]. right. eauto.
        - intros [?|(r & ? & [[[?|?] _]|(? & ? & ? & [[_ ->]|(? & ? & ? & ? & _)])])];
            by simplify_eq. }
    destruct (Gemini.first_inline_image ps) as [imageData|] eqn:Himg.
    + split.
      * destruct (Gemini.removeBackground c); done.
      * intros [?|(r & ? & [[[?|?] _]|(? & ? & ? & [[[?|(? & ? & ?)] _]|(? & ? & ? & ? & Hnone & _)])])];
          simplify_eq.
        apply first_inline_image_none in Hnone. congruence.
    + split.
      * intros ?; simplify_eq. right. exists response. split; [done|]. right.
        exists candidate, others. split; [done|]. right. exists cont, ps.
        split_and!; try done. by apply first_inline_image_none.
      * intros [?|(r & ? & [[[?|?] _]|(? & ? & ? & [[[?|(? & ? & ?)] _]|(? & ? & ? & ? & _ & ->)])])];
          by simplify_eq.
  - split.
    + intros ?; simplify_eq. right. exists response. split; [done|]. left. eauto.
    + intros [?|(r & ? & [[_ ->]|(? & ? & ? & _)])]; by simplify_eq.
Qed.

(** X2. The image is taken from the first part of the first candidate that
    carries a non-empty inline payload: parts without one before it are
    skipped, and the parts and candidates after it are not looked at. The
    URL of the result is the data URL of the processed image, or of that
    payload when the background removal threw. *)
Theorem generateGeminiImage_first_image (p : string) (c : Gemini.Call)
    (response : Gemini.GenerateContentResponse) (candidate : Gemini.Candidate)
    (others : list Gemini.Candidate) (cont : Gemini.Content)
    (before after : list Gemini.Part) (part : Gemini.Part) (imageData : string) :
  Gemini.generateContent c = Returns response →
  Gemini.candidates response = Some (candidate :: others) →
  Gemini.content candidate = Some cont →
  Gemini.parts cont = Some (before ++ part :: after) →
  (∀ q, q ∈ before → Gemini.inline_image q = None) →
  Gemini.inline_image part = Some imageData →
  imageData ≠ "" ∧
  Gemini.generateGeminiImage p c
  = Returns (Gemini.sticker p
               (Gemini.dataUrl
                  match Gemini.removeBackground c with
                  | Returns base64 => base64
                  | Throws _ => imageData
                  end)).
Proof.
  intros Hresp Hcands Hcont Hparts Hbefore Hpart. split.
  { unfold Gemini.inline_image in Hpart. repeat case_match; by simplify_eq. }
  assert (Gemini.first_inline_image (before ++ part :: after) = Some imageData) as Himg.
  { clear Hparts. induction before as [|q before IH]; simpl.
    - by rewrite Hpart.
    - rewrite (Hbefore q) by apply list_elem_of_here.
      apply IH. intros q' Hq'. apply Hbefore. by right. }
  unfold Gemini.generateGeminiImage. rewrite Hresp, Hcands, Hcont, Hparts, Himg.
  by destruct (Gemini.removeBackground c).
Qed.

Lemma generateGeminiImage_first_image_witness :
  Gemini.generateGeminiImage "cat" Sample.call
  = Returns (Gemini.sticker "cat" "data:image/png;base64,UE5HIQ").
Proof.
  refine (proj2 (generateGeminiImage_first_image "cat" Sample.call Sample.response
                   _ [] _ [ {| Gemini.inlineData := None |} ] [] _ "aVZCT1J3"
                   eq_refl eq_refl eq_refl eq_refl _ eq_refl)).
  intros q Hq. apply list_elem_of_singleton in Hq as ->. reflexivity.
Defined.

(** ** The text of a job ID *)

Lemma substring_0_length (m : nat) (s : string) :
  String.length (String.substring 0 m s) = Nat.min m (String.length s).
Proof.
  revert s. induction m as [|m IH]; intros [|c s]; simpl; try done.
  by rewrite IH.
Qed.

Lemma substring_0_prefix (m : nat) (s : string) :
  ∃ rest, s = String.substring 0 m s +:+ rest.
Proof.
  revert s. induction m as [|m IH]; intros [|c s]; simpl.
  - by exists "".
  - by exists (String c s).
  - by exists "".
  - destruct (IH s) as [rest Hrest]. exists rest.
    change (String c s = String c (String.substring 0 m s +:+ rest)). by f_equal.
Qed.

Lemma substring_0_base36 (m : nat) (s : string) :
  base36_digits s = true → base36_digits (String.substring 0 m s) = true.
Proof.
  revert s. induction m as [|m IH]; intros [|c s]; simpl; try done.
  intros [Hc Hs]%andb_true_iff. rewrite Hc. simpl. by apply IH.
Qed.

(** X3. When [Math.random().toString(36)] reads ["0."] followed by digits,
    the job ID is made of the first thirteen of these digits, or of all of
    them when there are fewer; it is empty when the text is ["0"]. An ID made
    of base-36 digits has the generated shape and is never ["__proto__"]. *)
Theorem generateJobId_of_fraction (digits : string) :
  let id := generateJobId_of ("0." +:+ digits) in
  String.length id = Nat.min 13 (String.length digits) ∧
  (∃ rest, digits = id +:+ rest) ∧
  generateJobId_of "0" = "" ∧
  (base36_digits digits = true → generated_id id = true ∧ id ≠ "__proto__").
Proof.
  assert (generateJobId_of ("0." +:+ digits) = String.substring 0 13 digits) as ->
    by reflexivity.
  split; [apply substring_0_length|]. split; [apply substring_0_prefix|].
  split; [reflexivity|]. intros Hdigits.
  assert (generated_id (String.substring 0 13 digits) = true) as Hshape.
  { unfold generated_id. rewrite substring_0_base36 by done. simpl.
    rewrite substring_0_length. apply Nat.leb_le. lia. }
  split; [done|]. intros Heq. rewrite Heq in Hshape. discriminate.
Qed.

Lemma generateJobId_of_fraction_witness :
  generateJobId_of "0.4fzyo82mvyr1k9" = "4fzyo82mvyr1k" ∧
  generated_id (generateJobId_of "0.4fzyo82mvyr1k9") = true.
Proof.
  split; [reflexivity|].
  apply (generateJobId_of_fraction "4fzyo82mvyr1k9"). reflexivity.
Defined.

(** ** A job from queue to status *)

Lemma some_is_job (id : string) (t : Tracker) :
  some (is_job id) (jobQueue t) = bool_decide (id ∈ pending_ids t).
Proof.
  rewrite some_findIndex. apply bool_decide_ext, findIndex_pending.
Qed.

Lemma job_status_processing (w : World) (id : string) :
  id ≠ "" → lookup_completed (completedJobs (tracker w)) id = None →
  in_pending id (tracker w) →
  job_status (Some id) w = (w, send 200 (StatusBody "processing" None None)).
Proof.
  intros Hid Hnone Hin. unfold job_status.
  change (missing (Some id)) with (bool_decide (id = "")).
  change (param (Some id)) with id. rewrite bool_decide_eq_false_2 by done.
  cbv zeta. rewrite Hnone, some_is_job. by rewrite bool_decide_eq_true_2.
Qed.

(** X4. A queue request with a prompt, made while the balance is positive,
    is answered with 200 and the ID that [generateJobId] returned; the job is
    appended to the pending jobs with its prompt and a new timeout whose
    callback carries the ID and the prompt; the balance, the completed and
    the cancelled jobs and the other timeouts are untouched. The status of
    the new ID is then [processing], unless the ID is empty or
    [completedJobs[id]] already has a value. *)
Theorem queue_accepted (w : World) (q : option string) (id : string)
    (rest : list string) :
  0 < credits (tracker w) → missing q = false → random w = id :: rest →
  ∃ w' : World,
    queue_image_generation q w = Some (w', send 200 (JobIdBody id)) ∧
    jobQueue (tracker w')
    = push {| jobId := id; prompt := param q; timeoutId := nextTimeout w |}
        (jobQueue (tracker w)) ∧
    completedJobs (tracker w') = completedJobs (tracker w) ∧
    cancelledJobs (tracker w') = cancelledJobs (tracker w) ∧
    credits (tracker w') = credits (tracker w) ∧
    random w' = rest ∧
    timers w' !! nextTimeout w
    = Some {| captured_jobId := id; captured_prompt := param q |} ∧
    (∀ h, h ≠ nextTimeout w → timers w' !! h = timers w !! h) ∧
    in_pending id (tracker w') ∧
    (id ≠ "" → lookup_completed (completedJobs (tracker w)) id = None →
     job_status (Some id) w' = (w', send 200 (StatusBody "processing" None None))).
Proof.
  intros Hcredits Hq Hrandom. rewrite queue_image_generation_unfold.
  rewrite decide_False, Hq, Hrandom by lia. eexists. split; [reflexivity|].
  do 5 (split; [reflexivity|]). simpl.
  split; [by rewrite lookup_insert_eq|].
  split; [intros h Hh; by rewrite lookup_insert_ne|].
  assert (in_pending id
            (with_jobQueue
               (push {| jobId := id; prompt := param q; timeoutId := nextTimeout w |}
                  (jobQueue (tracker w))) (tracker w))) as Hin.
  { unfold in_pending, pending_ids, push. simpl. rewrite fmap_app.
    apply elem_of_app. right. apply list_elem_of_here. }
  split; [done|]. intros Hid Hnone. by apply job_status_processing.
Qed.

Lemma queue_accepted_witness :
  ∃ w' : World,
    queue_image_generation (Some "cat") (initial Sample.ids)
    = Some (w', send 200 (JobIdBody "4fzyo82mvyr")) ∧
    job_status (Some "4fzyo82mvyr") w'
    = (w', send 200 (StatusBody "processing" None None)).
Proof.
  destruct (queue_accepted (initial Sample.ids) (Some "cat") "4fzyo82mvyr"
              (tail Sample.ids))
    as (w' & Hqueue & _ & _ & _ & _ & _ & _ & _ & _ & Hstatus);
    [reflexivity..|].
  exists w'. split; [exact Hqueue|]. apply Hstatus; [done|reflexivity].
Defined.

(** X10. When the four calls of a job succeed while its ID, not empty, is
    still pending, the next status request for the ID is answered with
    [completed], the four images in the order of the calls, and the balance
    less the credit that was just taken. *)
Theorem job_status_after_completion (w : World) (k : nat) (c : Closure)
    (c1 c2 c3 c4 : Gemini.Call) (i1 i2 i3 i4 : ImageResponse) :
  awaiting w !! k = Some c →
  captured_jobId c ≠ "" →
  in_pending (captured_jobId c) (tracker w) →
  Gemini.generateGeminiImage (captured_prompt c) c1 = Returns i1 →
  Gemini.generateGeminiImage (captured_prompt c) c2 = Returns i2 →
  Gemini.generateGeminiImage (captured_prompt c) c3 = Returns i3 →
  Gemini.generateGeminiImage (captured_prompt c) c4 = Returns i4 →
  ∃ w' : World,
    step (GenerationSettles k c1 c2 c3 c4) w = Some (w', None) ∧
    job_status (Some (captured_jobId c)) w'
    = (w', send 200 (StatusBody "completed" (Some (OwnImages [i1; i2; i3; i4]))
                       (Some (credits (tracker w) - 1)))).
Proof.
  intros Hk Hid Hin H1 H2 H3 H4. eexists. split; [simpl; rewrite Hk; reflexivity|].
  unfold job_status, timeout_callback, finish_job. simpl.
  rewrite bool_decide_eq_false_2 by done.
  assert (generate_four (captured_prompt c) c1 c2 c3 c4 = Some [i1; i2; i3; i4])
    as -> by (apply generate_four_fulfilled; by eexists _, _, _, _).
  rewrite decide_True by (by apply findIndex_pending). simpl.
  unfold lookup_completed. by rewrite lookup_insert_eq.
Qed.

Lemma job_status_after_completion_witness :
  ∃ w w' : World,
    run [GetQueueImageGeneration (Some "cat"); TimeoutElapses 0] (initial Sample.ids)
      = Some w ∧
    step (GenerationSettles 0 Sample.call Sample.call Sample.call Sample.call) w
      = Some (w', None) ∧
    job_status (Some "4fzyo82mvyr") w'
    = (w', send 200
             (StatusBody "completed"
                (Some (OwnImages
                         (replicate 4 (Gemini.sticker "cat" "data:image/png;base64,UE5HIQ"))))
                (Some 9))).
Proof.
  eexists.
  match goal with |- ∃ w', run ?es ?i = Some ?W ∧ _ =>
    let r := eval vm_compute in (run es i) in
    match r with Some ?v => unify W v end
  end.
  match goal with |- ∃ w', _ = Some ?W ∧ _ => set (w := W) end.
  destruct (job_status_after_completion w 0
              {| captured_jobId := "4fzyo82mvyr"; captured_prompt := "cat" |}
              Sample.call Sample.call Sample.call Sample.call _ _ _ _
              eq_refl ltac:(done) ltac:(apply list_elem_of_here)
              eq_refl eq_refl eq_refl eq_refl)
    as (w' & Hstep & Hstatus).
  exists w'. split; [vm_compute; reflexivity|]. split; [exact Hstep|exact Hstatus].
Defined.

Lemma not_pending_after_delete_only (id : string) (n : nat) (job : Job)
    (q : list Job) :
  q !! n = Some job → jobId job = id →
  (∀ m other, q !! m = Some other → jobId other = id → m = n) →
  id ∉ jobId <$> delete n q.
Proof.
  intros Hjob Hid Honly (other & Heq & Hother)%list_elem_of_fmap.
  apply list_elem_of_lookup in Hother as [m Hm].
  destruct (decide (m < n)%nat) as [Hlt|Hge].
  - rewrite list_lookup_delete_lt in Hm by done.
    specialize (Honly m other Hm (eq_sym Heq)). lia.
  - rewrite list_lookup_delete_ge in Hm by lia.
    specialize (Honly (S m) other Hm (eq_sym Heq)). lia.
Qed.

(** X11. After the cancellation of a pending job whose ID is not empty, is
    not a name of [Object.prototype], is not among the completed jobs and is
    carried by no other pending job, the status of the ID is [cancelled];
    other pending jobs may share IDs among themselves. *)
Theorem job_status_after_cancel (w : World) (id : string) :
  id ≠ "" → id ∉ Object_prototype →
  in_pending id (tracker w) →
  (∀ i j job1 job2,
     jobQueue (tracker w) !! i = Some job1 → jobQueue (tracker w) !! j = Some job2 →
     jobId job1 = id → jobId job2 = id → i = j) →
  ¬ in_completed id (tracker w) →
  ∃ w' : World,
    cancel_job (Some id) w = (w', send 200 (Text "Job successfully cancelled.")) ∧
    job_status (Some id) w' = (w', send 200 (StatusBody "cancelled" None None)).
Proof.
  intros Hid Hproto Hin Honly Hcompleted.
  assert (missing (Some id) = false) as Hq by (by apply bool_decide_eq_false).
  destruct (cancel_job_pending (Some id) w Hq Hin) as (n & job & Hjob & Hjid & _ & Hcancel).
  eexists. split; [exact Hcancel|].
  apply job_status_by_membership; [done..| | |].
  - done.
  - unfold in_pending, pending_ids. simpl.
    apply (not_pending_after_delete_only id n job); [done..|].
    intros m other Hm Hother. by apply (Honly m n other job).
  - unfold in_cancelled, cancelled_ids, push. simpl. rewrite fmap_app.
    apply elem_of_app. right. apply list_elem_of_here.
Qed.

Lemma job_status_after_cancel_witness :
  ∃ w w' : World,
    run [ GetQueueImageGeneration (Some "cat"); GetQueueImageGeneration (Some "dog");
          GetQueueImageGeneration (Some "fox") ] (initial ["aaa"; "bbb"; "bbb"])
      = Some w ∧
    pending_ids (tracker w) = ["aaa"; "bbb"; "bbb"] ∧
    cancel_job (Some "aaa") w
    = (w', send 200 (Text "Job successfully cancelled.")) ∧
    job_status (Some "aaa") w'
    = (w', send 200 (StatusBody "cancelled" None None)).
Proof.
  eexists.
  match goal with |- ∃ w', run ?es ?i = Some ?W ∧ _ =>
    let r := eval vm_compute in (run es i) in
    match r with Some ?v => unify W v end
  end.
  match goal with |- ∃ w', _ = Some ?W ∧ _ => set (w := W) end.
  destruct (job_status_after_cancel w "aaa") as (w' & Hcancel & Hstatus).
  - done.
  - apply (bool_decide_unpack _). vm_compute. reflexivity.
  - apply list_elem_of_here.
  - intros [|[|[|i]]] [|[|[|j]]] job1 job2 H1 H2 E1 E2;
      simpl in H1, H2; simplify_eq; done.
  - intros [images Himages]. vm_compute in Himages. discriminate Himages.
  - exists w'. split; [vm_compute; reflexivity|]. split; [reflexivity|].
    split; [exact Hcancel|exact Hstatus].
Defined.

(** ** One event at a time *)

Lemma step_transition (e : Event) (w w' : World) (r : option Response) :
  step e w = Some (w', r) → transition e w w'.
Proof.
  destruct e as [| |q|q|q|handle|k c1 c2 c3 c4]; simpl; intros Hstep.
  - simplify_eq. constructor.
  - simplify_eq. apply credits_purchased.
  - rewrite queue_image_generation_unfold in Hstep.
    destruct (decide (credits (tracker w) <= 0)) as [Hc|Hc].
    { simplify_eq. apply job_refused. by left. }
    destruct (missing q) eqn:Hq.
    { simplify_eq. apply job_refused. by right. }
    destruct (random w) as [|id rest] eqn:Hrandom; simplify_eq.
    apply job_queued; [lia|done..].
  - pose proof (job_status_same_world q w) as Hsame.
    destruct (job_status q w). simpl in Hsame. simplify_eq. constructor.
  - destruct (missing q) eqn:Hq.
    { unfold cancel_job in Hstep. rewrite Hq in Hstep. simplify_eq.
      apply cancel_refused. by left. }
    destruct (decide (param q ∈ pending_ids (tracker w))) as [Hin|Hout].
    + destruct (cancel_job_pending q w Hq Hin) as (n & job & Hjob & Hid & _ & Hcancel).
      rewrite Hcancel in Hstep. simplify_eq. by apply job_cancelled.
    + rewrite (cancel_job_not_pending q w Hq Hout) in Hstep. simplify_eq.
      apply cancel_refused. by right.
  - destruct (timers w !! handle) as [c|] eqn:Hc; simplify_eq.
    by apply callback_started.
  - destruct (awaiting w !! k) as [c|] eqn:Hk; simplify_eq.
    unfold timeout_callback.
    destruct (generate_four (captured_prompt c) c1 c2 c3 c4) as [images|] eqn:Hfour.
    2:{ apply (results_dropped k c); [done|by left]. }
    unfold finish_job. case_decide as Hidx.
    + apply findIndex_pending in Hidx.
      destruct (findIndex_first_job _ _ Hidx) as (n & job & Hn & Hjob & Hid & _).
      unfold splice_one. rewrite Hn, Nat2Z.id. by eapply job_completed.
    + apply (results_dropped k c); [done|]. right.
      intros Hin%findIndex_pending. by apply Hin.
Qed.

Lemma run_transitions (P : World → Prop) :
  (∀ e w w', P w → transition e w w' → P w') →
  ∀ es w w', P w → run es w = Some w' → P w'.
Proof.
  intros Hstep es. induction es as [|e es IH]; intros w w' HP Hrun; simpl in Hrun.
  - by simplify_eq.
  - destruct (step e w) as [[w1 r]|] eqn:He; [|done].
    eapply IH; [|done]. eapply Hstep; [done|]. by eapply step_transition.
Qed.

Lemma missing_false_param (q : option string) : missing q = false → param q ≠ "".
Proof. destruct q as [v|]; simpl; [|done]. by intros ?%bool_decide_eq_false. Qed.

(** ** Timeout handles *)

Lemma handles_fresh_transition (e : Event) (w w' : World) :
  handles_fresh w → transition e w w' → handles_fresh w'.
Proof.
  intros [Ht Hj Hd] Htr.
  destruct Htr as [w|w|q w _|q w id rest _ _ _|q w|q w _|q w n job _ Hjob _
                   |handle c w _|k c c1 c2 c3 c4 w _ _|k c c1 c2 c3 c4 w images n job _ _ Hjob _];
    try done.
  - split; simpl.
    + intros h [->|Hh]%lookup_insert_is_Some; [lia|]. destruct Hh as [_ Hh].
      specialize (Ht h Hh). lia.
    + unfold push. intros job [Hin|Hin]%elem_of_app.
      * specialize (Hj job Hin). lia.
      * apply list_elem_of_singleton in Hin as ->. simpl. lia.
    + unfold push. rewrite fmap_app. apply NoDup_app. split; [done|]. split.
      * intros h Hh Hnew. apply list_elem_of_singleton in Hnew. simpl in Hnew. subst h.
        apply list_elem_of_fmap in Hh as (job & Heq & Hin).
        specialize (Hj job Hin). lia.
      * apply NoDup_singleton.
  - split; simpl.
    + intros h [_ Hh]%lookup_delete_is_Some. by apply Ht.
    + intros job' Hin. apply Hj. by eapply list_elem_of_delete_inv.
    + rewrite list_fmap_delete. eapply sublist_NoDup; [done|apply sublist_delete].
  - split; simpl; [|done..].
    intros h [_ Hh]%lookup_delete_is_Some. by apply Ht.
  - split; simpl; [done| |].
    + intros job' Hin. apply Hj. by eapply list_elem_of_delete_inv.
    + rewrite list_fmap_delete. eapply sublist_NoDup; [done|apply sublist_delete].
Qed.

Lemma handles_fresh_run (rnd : list string) (es : list Event) (w : World) :
  run es (initial rnd) = Some w → handles_fresh w.
Proof.
  apply (run_transitions handles_fresh).
  - intros e w0 w1. apply handles_fresh_transition.
  - split; simpl.
    + intros h Hh. by apply lookup_empty_is_Some in Hh.
    + intros job Hjob. by apply elem_of_nil in Hjob.
    + apply NoDup_nil_2.
Qed.




(** X5. In every state of the router, a job that is queued and cancelled
    straight away leaves no trace but its ID among the cancelled jobs: when
    the ID that [generateJobId] returns is not empty and not already pending,
    both requests are answered with 200, and afterwards the pending jobs, the
    scheduled timeouts, the started callbacks, the completed jobs and the
    balance are what they were before the two requests. *)
Theorem queue_then_cancel (rnd : list string) (es : list Event) (w : World)
    (q : option string) (id : string) (rest : list string) :
  run es (initial rnd) = Some w →
  0 < credits (tracker w) → missing q = false → random w = id :: rest →
  id ≠ "" → ¬ in_pending id (tracker w) →
  ∃ w1 w2 : World,
    queue_image_generation q w = Some (w1, send 200 (JobIdBody id)) ∧
    cancel_job (Some id) w1 = (w2, send 200 (Text "Job successfully cancelled.")) ∧
    jobQueue (tracker w2) = jobQueue (tracker w) ∧
    timers w2 = timers w ∧
    awaiting w2 = awaiting w ∧
    completedJobs (tracker w2) = completedJobs (tracker w) ∧
    credits (tracker w2) = credits (tracker w) ∧
    cancelledJobs (tracker w2) = push {| cancelledId := id |} (cancelledJobs (tracker w)).
Proof.
  intros Hrun Hcredits Hq Hrandom Hid Hout.
  destruct (handles_fresh_run rnd es w Hrun) as [Htimers _ _].
  assert (timers w !! nextTimeout w = None) as Hnew.
  { apply eq_None_not_Some. intros Hsome. specialize (Htimers _ Hsome). lia. }
  rewrite queue_image_generation_unfold, decide_False, Hq, Hrandom by lia.
  eexists. eexists. split; [reflexivity|].
  set (job := {| jobId := id; prompt := param q; timeoutId := nextTimeout w |}).
  assert (findIndex (is_job id) (push job (jobQueue (tracker w)))
          = Z.of_nat (length (jobQueue (tracker w)))) as Hindex.
  { assert (findIndex (is_job id) (jobQueue (tracker w)) = -1) as Hnone.
    { destruct (decide (findIndex (is_job id) (jobQueue (tracker w)) = -1)); [done|].
      exfalso. by apply Hout, findIndex_pending. }
    rewrite findIndex_none in Hnone.
    unfold push. clear -Hnone. induction (jobQueue (tracker w)) as [|j l IH].
    - simpl. unfold is_job. simpl. by rewrite bool_decide_eq_true_2.
    - simpl findIndex. rewrite (Hnone j) by apply list_elem_of_here.
      rewrite IH by (intros x Hx; apply Hnone; by right).
      rewrite decide_False by lia. simpl length. lia. }
  unfold cancel_job. simpl. rewrite bool_decide_eq_false_2 by done.
  rewrite Hindex, decide_True by lia. rewrite Nat2Z.id.
  assert (push job (jobQueue (tracker w)) !! length (jobQueue (tracker w)) = Some job)
    as -> by (unfold push; by apply list_lookup_middle).
  assert (splice_one (Z.of_nat (length (jobQueue (tracker w))))
            (push job (jobQueue (tracker w))) = jobQueue (tracker w)) as Hsplice.
  { unfold splice_one, push. by rewrite Nat2Z.id, delete_middle, app_nil_r. }
  split; [reflexivity|]. split; [exact Hsplice|].
  split; [exact (delete_insert_id _ _ _ Hnew)|]. done.
Qed.

Lemma queue_then_cancel_witness :
  ∃ w1 w2 : World,
    queue_image_generation (Some "cat") (initial Sample.ids)
    = Some (w1, send 200 (JobIdBody "4fzyo82mvyr")) ∧
    cancel_job (Some "4fzyo82mvyr") w1
    = (w2, send 200 (Text "Job successfully cancelled.")) ∧
    jobQueue (tracker w2) = [] ∧ timers w2 = ∅ ∧ credits (tracker w2) = 10.
Proof.
  destruct (queue_then_cancel Sample.ids [] (initial Sample.ids) (Some "cat")
              "4fzyo82mvyr" (tail Sample.ids))
    as (w1 & w2 & Hqueue & Hcancel & Hjobs & Htimers & _ & _ & Hcredits & _);
    [reflexivity|reflexivity|reflexivity|reflexivity|done|apply not_elem_of_nil|].
  exists w1, w2. by split_and!.
Defined.

(** ** Prompts *)

Lemma prompts_present_transition (e : Event) (w w' : World) :
  prompts_present w → transition e w w' → prompts_present w'.
Proof.
  intros [Hj Ht Ha] Htr.
  destruct Htr as [w|w|q w _|q w id rest _ Hq _|q w|q w _|q w n job _ Hjob _
                   |handle c w Hc|k c c1 c2 c3 c4 w _ _|k c c1 c2 c3 c4 w images n job _ _ Hjob _];
    try done.
  - apply missing_false_param in Hq. split; simpl.
    + unfold push. intros job [Hin|Hin]%elem_of_app; [by apply Hj|].
      by apply list_elem_of_singleton in Hin as ->.
    + intros h c [[_ <-]|[_ Hc]]%lookup_insert_Some; [done|by eapply Ht].
    + done.
  - split; simpl; [| |done].
    + intros job' Hin. apply Hj. by eapply list_elem_of_delete_inv.
    + intros h c [_ Hc]%lookup_delete_Some. by eapply Ht.
  - split; simpl; [done| |].
    + intros h c' [_ Hc']%lookup_delete_Some. by eapply Ht.
    + unfold push. intros c' [Hin|Hin]%elem_of_app; [by apply Ha|].
      apply list_elem_of_singleton in Hin as ->. by eapply Ht.
  - split; simpl; [done..|].
    intros c' Hin. apply Ha. by eapply list_elem_of_delete_inv.
  - split; simpl; [|done|].
    + intros job' Hin. apply Hj. by eapply list_elem_of_delete_inv.
    + intros c' Hin. apply Ha. by eapply list_elem_of_delete_inv.
Qed.

(** X13. The adapter is only ever given a non-empty prompt: in every state
    of the router, the prompt of each pending job, of each scheduled callback
    and of each started callback, the one its four calls of
    [generateGeminiImage] are made with, is not the empty string. *)
Theorem prompts_never_empty (rnd : list string) (es : list Event) (w : World) :
  run es (initial rnd) = Some w →
  (∀ job, job ∈ jobQueue (tracker w) → prompt job ≠ "") ∧
  (∀ h c, timers w !! h = Some c → captured_prompt c ≠ "") ∧
  (∀ k c, awaiting w !! k = Some c → captured_prompt c ≠ "").
Proof.
  intros Hrun.
  assert (prompts_present w) as [Hj Ht Ha].
  { revert Hrun. apply (run_transitions prompts_present).
    - intros e w0 w1. apply prompts_present_transition.
    - split; simpl.
      + intros job Hjob. by apply elem_of_nil in Hjob.
      + intros h c Hc. by rewrite lookup_empty in Hc.
      + intros c Hc. by apply elem_of_nil in Hc. }
  split; [done|]. split; [done|].
  intros k c Hk. apply Ha. by eapply list_elem_of_lookup_2.
Qed.

Lemma prompts_never_empty_witness :
  ∃ w, run [GetQueueImageGeneration (Some "cat"); GetQueueImageGeneration (Some "");
            GetQueueImageGeneration None; TimeoutElapses 0] (initial Sample.ids) = Some w ∧
       awaiting w = [{| captured_jobId := "4fzyo82mvyr"; captured_prompt := "cat" |}] ∧
       ∀ k c, awaiting w !! k = Some c → captured_prompt c ≠ "".
Proof.
  eexists. split; [vm_compute; reflexivity|]. split; [reflexivity|].
  refine (proj2 (proj2 (prompts_never_empty Sample.ids
            [GetQueueImageGeneration (Some "cat"); GetQueueImageGeneration (Some "");
             GetQueueImageGeneration None; TimeoutElapses 0] _ _))).
  vm_compute. reflexivity.
Defined.

(** ** Finished jobs *)

Lemma finished_transition (e : Event) (w w' : World) (id : string) :
  transition e w w' →
  (in_completed id (tracker w) → in_completed id (tracker w')) ∧
  (in_cancelled id (tracker w) → in_cancelled id (tracker w')).
Proof.
  intros Htr.
  destruct Htr as [w|w|q w _|q w id' rest _ _ _|q w|q w _|q w n job _ _ _
                   |handle c w _|k c c1 c2 c3 c4 w _ _|k c c1 c2 c3 c4 w images n job _ _ _ _];
    try done.
  - split; [done|]. unfold in_cancelled, cancelled_ids, push. simpl.
    rewrite fmap_app. intros Hin. apply elem_of_app. by left.
  - split; [|done]. unfold in_completed. simpl. intros Hin.
    apply lookup_insert_is_Some'. by right.
Qed.

(** X6. Nothing is ever taken out of the completed or the cancelled jobs:
    an ID that is completed stays completed, and an ID that is cancelled stays
    cancelled, through every later sequence of requests, elapsing timeouts
    and settling generations. *)
Theorem finished_jobs_stay (es : list Event) (w w' : World) (id : string) :
  run es w = Some w' →
  (in_completed id (tracker w) → in_completed id (tracker w')) ∧
  (in_cancelled id (tracker w) → in_cancelled id (tracker w')).
Proof.
  intros Hrun.
  revert w Hrun. induction es as [|e es IH]; intros w Hrun; simpl in Hrun.
  - by simplify_eq.
  - destruct (step e w) as [[w1 r]|] eqn:He; [|done].
    destruct (finished_transition e w w1 id (step_transition _ _ _ _ He)) as [Hc Hx].
    destruct (IH w1 Hrun) as [Hc' Hx']. split; eauto.
Qed.

Lemma finished_jobs_stay_witness :
  ∃ w w' : World,
    run Sample.complete_and_cancel (initial Sample.ids) = Some w ∧
    run (Sample.one_more_job) w = Some w' ∧
    in_completed "4fzyo82mvyr" (tracker w') ∧ in_cancelled "8k2j5h8d1m4" (tracker w').
Proof.
  eexists.
  match goal with |- ∃ w', run ?es ?i = Some ?W ∧ _ =>
    let r := eval vm_compute in (run es i) in
    match r with Some ?v => unify W v end
  end.
  match goal with |- ∃ w', _ = Some ?W ∧ _ => set (w := W) end.
  destruct (run (Sample.one_more_job) w) as [w'|] eqn:Hrun;
    [|vm_compute in Hrun; discriminate Hrun].
  exists w'. split; [vm_compute; reflexivity|]. split; [reflexivity|].
  split.
  - apply (proj1 (finished_jobs_stay (Sample.one_more_job) w w' "4fzyo82mvyr" Hrun)).
    vm_compute. eauto.
  - apply (proj2 (finished_jobs_stay (Sample.one_more_job) w w' "8k2j5h8d1m4" Hrun)).
    apply list_elem_of_here.
Defined.

Lemma pending_lookup (t : Tracker) (n : nat) (job : Job) :
  jobQueue t !! n = Some job → in_pending (jobId job) t.
Proof.
  intros Hjob. unfold in_pending, pending_ids. apply list_elem_of_fmap.
  exists job. split; [done|]. by eapply list_elem_of_lookup_2.
Qed.

Lemma ids_apart_not_both (w : World) (id : string) :
  ids_apart w → in_pending id (tracker w) → completedJobs (tracker w) !! id = None.
Proof.
  intros [_ Hc _ _] Hin. apply eq_None_not_Some. intros Hsome.
  apply (Hc id Hsome), elem_of_app. by left.
Qed.

Lemma completed_results_transition (e : Event) (w w' : World) (id : string)
    (images : list ImageResponse) :
  ids_apart w → transition e w w' →
  completedJobs (tracker w) !! id = Some images →
  completedJobs (tracker w') !! id = Some images.
Proof.
  intros Hinv Htr Hid.
  destruct Htr as [w|w|q w _|q w id' rest _ _ _|q w|q w _|q w n job _ _ _
                   |handle c w _|k c c1 c2 c3 c4 w _ _|k c c1 c2 c3 c4 w images' n job _ _ Hjob Hjid];
    try done.
  simpl. rewrite lookup_insert_ne; [done|]. intros Heq.
  apply pending_lookup in Hjob. rewrite Hjid, Heq in Hjob.
  apply (ids_apart_not_both w id) in Hjob; [congruence|done].
Qed.

Lemma completed_results_run (es : list Event) (w w' : World) (id : string)
    (images : list ImageResponse) :
  ids_apart w → run es w = Some w' →
  completedJobs (tracker w) !! id = Some images →
  completedJobs (tracker w') !! id = Some images.
Proof.
  revert w. induction es as [|e es IH]; intros w Hinv Hrun Hid; simpl in Hrun.
  - by simplify_eq.
  - destruct (step e w) as [[w1 r]|] eqn:He; [|done].
    apply (IH w1); [by eapply ids_apart_step|done|].
    eapply completed_results_transition; [done| |done]. by eapply step_transition.
Qed.

(** X7. As long as [generateJobId] does not repeat itself, the result of a
    completed job is final: in every later state the same images are stored
    under its ID, and the ID is neither pending nor cancelled. *)
Theorem completed_results_final (rnd : list string) (es1 es2 : list Event)
    (w1 w2 : World) (id : string) (images : list ImageResponse) :
  NoDup rnd →
  run es1 (initial rnd) = Some w1 →
  completedJobs (tracker w1) !! id = Some images →
  run es2 w1 = Some w2 →
  completedJobs (tracker w2) !! id = Some images ∧
  ¬ in_pending id (tracker w2) ∧ ¬ in_cancelled id (tracker w2).
Proof.
  intros Hnd Hrun1 Hid Hrun2.
  assert (ids_apart w1) as Hinv1.
  { eapply ids_apart_run; [|done]. by apply ids_apart_initial. }
  assert (ids_apart w2) as Hinv2 by (by eapply ids_apart_run).
  assert (completedJobs (tracker w2) !! id = Some images) as Hid2
    by exact (completed_results_run es2 w1 w2 id images Hinv1 Hrun2 Hid).
  split; [done|].
  destruct (ids_apart_exclusive w2 id Hinv2) as (Hpc & _ & Hcx).
  assert (in_completed id (tracker w2)) as Hc by (by eexists).
  split; intros H; [apply Hpc|apply Hcx]; done.
Qed.

Lemma completed_results_final_witness :
  ∃ w1 w2 : World,
    run Sample.complete_and_cancel (initial Sample.ids) = Some w1 ∧
    run Sample.one_more_job w1 = Some w2 ∧
    completedJobs (tracker w2) !! "4fzyo82mvyr"
    = Some (replicate 4 (Gemini.sticker "cat" "data:image/png;base64,UE5HIQ")).
Proof.
  eexists.
  match goal with |- ∃ w', run ?es ?i = Some ?W ∧ _ =>
    let r := eval vm_compute in (run es i) in
    match r with Some ?v => unify W v end
  end.
  match goal with |- ∃ w', _ = Some ?W ∧ _ => set (w1 := W) end.
  destruct (run Sample.one_more_job w1) as [w2|] eqn:Hrun;
    [|vm_compute in Hrun; discriminate Hrun].
  exists w2. split; [vm_compute; reflexivity|]. split; [reflexivity|].
  refine (proj1 (completed_results_final Sample.ids Sample.complete_and_cancel
                   Sample.one_more_job w1 w2 "4fzyo82mvyr" _ _ _ _ Hrun)).
  - apply (bool_decide_unpack _). vm_compute. reflexivity.
  - vm_compute. reflexivity.
  - vm_compute. reflexivity.
Defined.

(** X9. As long as [generateJobId] does not repeat itself, a cancellation
    is final: in every later state the ID is cancelled, is not pending and
    is not completed, even when its callback had already started and its
    four images arrive afterwards. *)
Theorem cancelled_jobs_final (rnd : list string) (es1 es2 : list Event)
    (w1 w2 : World) (id : string) :
  NoDup rnd →
  run es1 (initial rnd) = Some w1 →
  in_cancelled id (tracker w1) →
  run es2 w1 = Some w2 →
  in_cancelled id (tracker w2) ∧
  ¬ in_pending id (tracker w2) ∧ ¬ in_completed id (tracker w2).
Proof.
  intros Hnd Hrun1 Hid Hrun2.
  assert (ids_apart w2) as Hinv2.
  { eapply ids_apart_run; [|done]. eapply ids_apart_run; [|done].
    by apply ids_apart_initial. }
  assert (in_cancelled id (tracker w2)) as Hid2.
  { revert Hid. clear -Hrun2. revert w1 Hrun2.
    induction es2 as [|e es IH]; intros w Hrun Hid; simpl in Hrun.
    - by simplify_eq.
    - destruct (step e w) as [[w' r]|] eqn:He; [|done].
      apply (IH w'); [done|].
      by apply (finished_transition e w w' id (step_transition _ _ _ _ He)). }
  split; [done|].
  destruct (ids_apart_exclusive w2 id Hinv2) as (_ & Hpx & Hcx).
  split; intros H; [apply Hpx|apply Hcx]; done.
Qed.

Lemma cancelled_jobs_final_witness :
  ∃ w1 w2 : World,
    run [ GetQueueImageGeneration (Some "cat"); TimeoutElapses 0;
          PostCancelJob (Some "4fzyo82mvyr") ] (initial Sample.ids) = Some w1 ∧
    in_cancelled "4fzyo82mvyr" (tracker w1) ∧
    run [GenerationSettles 0 Sample.call Sample.call Sample.call Sample.call] w1
      = Some w2 ∧
    ¬ in_completed "4fzyo82mvyr" (tracker w2).
Proof.
  eexists.
  match goal with |- ∃ w', run ?es ?i = Some ?W ∧ _ =>
    let r := eval vm_compute in (run es i) in
    match r with Some ?v => unify W v end
  end.
  match goal with |- ∃ w', _ = Some ?W ∧ _ => set (w1 := W) end.
  destruct (run [GenerationSettles 0 Sample.call Sample.call Sample.call Sample.call] w1)
    as [w2|] eqn:Hrun; [|vm_compute in Hrun; discriminate Hrun].
  assert (in_cancelled "4fzyo82mvyr" (tracker w1)) as Hin by apply list_elem_of_here.
  exists w2. split; [vm_compute; reflexivity|]. split; [exact Hin|].
  split; [reflexivity|].
  refine (proj2 (proj2 (cancelled_jobs_final Sample.ids
            [ GetQueueImageGeneration (Some "cat"); TimeoutElapses 0;
              PostCancelJob (Some "4fzyo82mvyr") ]
            [GenerationSettles 0 Sample.call Sample.call Sample.call Sample.call]
            w1 w2 "4fzyo82mvyr" _ _ Hin Hrun))).
  - apply (bool_decide_unpack _). vm_compute. reflexivity.
  - vm_compute. reflexivity.
Defined.

(** ** The balance and the completed jobs *)

Lemma purchases_cons (e : Event) (es : list Event) :
  purchases (e :: es) = purchases [e] + purchases es.
Proof. destruct e; simpl; lia. Qed.

Lemma accounting_transition (e : Event) (w w' : World) :
  ids_apart w → transition e w w' →
  credits (tracker w') + Z.of_nat (size (completedJobs (tracker w')))
  = credits (tracker w) + Z.of_nat (size (completedJobs (tracker w)))
    + 10 * purchases [e].
Proof.
  intros Hinv Htr.
  destruct Htr as [w|w|q w _|q w id' rest _ _ _|q w|q w _|q w n job _ _ _
                   |handle c w _|k c c1 c2 c3 c4 w _ _|k c c1 c2 c3 c4 w images n job _ _ Hjob Hjid];
    simpl; try lia.
  apply pending_lookup in Hjob. rewrite Hjid in Hjob.
  rewrite map_size_insert_None by (by apply ids_apart_not_both). lia.
Qed.

Lemma accounting_run (es : list Event) (w w' : World) :
  ids_apart w → run es w = Some w' →
  credits (tracker w') + Z.of_nat (size (completedJobs (tracker w')))
  = credits (tracker w) + Z.of_nat (size (completedJobs (tracker w)))
    + 10 * purchases es.
Proof.
  revert w. induction es as [|e es IH]; intros w Hinv Hrun; simpl in Hrun.
  - simplify_eq. simpl. lia.
  - destruct (step e w) as [[w1 r]|] eqn:He; [|done].
    rewrite purchases_cons, (IH w1) by (by eapply ids_apart_step || done).
    rewrite (accounting_transition e w w1) by (by eapply step_transition || done). lia.
Qed.

(** X8. As long as [generateJobId] does not repeat itself, the balance is
    the initial 10, plus 10 for each purchase, minus 1 for each completed
    job, and that is what GET /api/credits answers: cancelled jobs, failed
    jobs and refused requests cost nothing, and no job is paid for twice. *)
Theorem credits_accounting (rnd : list string) (es : list Event) (w : World) :
  NoDup rnd →
  run es (initial rnd) = Some w →
  credits (tracker w)
  = 10 + 10 * purchases es - Z.of_nat (size (completedJobs (tracker w))) ∧
  get_credits w
  = (w, send 200 (CreditsBody
                    (10 + 10 * purchases es
                     - Z.of_nat (size (completedJobs (tracker w)))))).
Proof.
  intros Hnd Hrun.
  pose proof (accounting_run es (initial rnd) w (ids_apart_initial rnd Hnd) Hrun) as H.
  simpl in H. rewrite map_size_empty in H.
  assert (credits (tracker w)
          = 10 + 10 * purchases es - Z.of_nat (size (completedJobs (tracker w)))) as Heq
    by lia.
  split; [done|]. unfold get_credits. by rewrite <- Heq.
Qed.

Lemma credits_accounting_witness :
  ∃ w : World,
    run (Sample.complete_and_cancel ++ Sample.one_more_job) (initial Sample.ids) = Some w ∧
    size (completedJobs (tracker w)) = 2%nat ∧
    get_credits w = (w, send 200 (CreditsBody 18)).
Proof.
  eexists. split; [vm_compute; reflexivity|]. split; [vm_compute; reflexivity|].
  refine (proj2 (credits_accounting Sample.ids
                   (Sample.complete_and_cancel ++ Sample.one_more_job) _ _ _)).
  - apply (bool_decide_unpack _). vm_compute. reflexivity.
  - vm_compute. reflexivity.
Defined.

(** ** Jobs that failed *)

Lemma closures_once_transition (e : Event) (w w' : World) :
  closures_once w → transition e w w' → closures_once w'.
Proof.
  intros [Htr Har Ht Ha Hta Hr] Htrans.
  destruct Htrans as [w|w|q w _|q w id rest _ _ Hrandom|q w|q w _|q w n job _ _ _
                   |handle c w Hc|k c c1 c2 c3 c4 w _ _|k c c1 c2 c3 c4 w images n job _ _ _ _];
    try done.
  - rewrite Hrandom in *. apply NoDup_cons in Hr as [Hid Hrest].
    split; simpl; [| | |done| |done].
    + intros h c [[_ <-]|[_ Hc]]%lookup_insert_Some; [done|].
      intros Hin. apply (Htr h c Hc). by right.
    + intros c Hc Hin. apply (Har c Hc). by right.
    + intros h h' c c' [[<- <-]|[Hne Hc]]%lookup_insert_Some
        [[<- <-]|[Hne' Hc']]%lookup_insert_Some Heq; simpl in *; try done.
      * exfalso. apply (Htr h' c' Hc'). rewrite <- Heq. by left.
      * exfalso. apply (Htr h c Hc). rewrite Heq. by left.
      * by eapply Ht.
    + intros h c c' [[_ <-]|[_ Hc]]%lookup_insert_Some Hc' Heq; simpl in *.
      * apply (Har c' Hc'). rewrite <- Heq. by left.
      * by eapply Hta.
  - split; simpl; [|done| |done| |done].
    + intros h c [_ Hc]%lookup_delete_Some. by eapply Htr.
    + intros h h' c c' [_ Hc]%lookup_delete_Some [_ Hc']%lookup_delete_Some.
      by eapply Ht.
    + intros h c c' [_ Hc]%lookup_delete_Some. by eapply Hta.
  - split; simpl; [| | | | |done].
    + intros h c' [_ Hc']%lookup_delete_Some. by eapply Htr.
    + unfold push. intros c' [Hin|Hin]%elem_of_app; [by apply Har|].
      apply list_elem_of_singleton in Hin as ->. by eapply Htr.
    + intros h h' c0 c' [_ Hc0]%lookup_delete_Some [_ Hc']%lookup_delete_Some.
      by eapply Ht.
    + unfold push. rewrite fmap_app. apply NoDup_app. split; [done|]. split.
      * intros id Hid Hnew. apply list_elem_of_singleton in Hnew. simpl in Hnew. subst id.
        apply list_elem_of_fmap in Hid as (c' & Heq & Hc').
        by apply (Hta handle c c' Hc Hc').
      * apply NoDup_singleton.
    + unfold push. intros h c0 c' [Hne Hc0]%lookup_delete_Some [Hin|Hin]%elem_of_app.
      * by eapply Hta.
      * apply list_elem_of_singleton in Hin as ->. intros Heq.
        apply Hne. by eapply Ht.
  - split; simpl; [done| |done| | |done].
    + intros c' Hc'. apply Har. by eapply list_elem_of_delete_inv.
    + rewrite list_fmap_delete. eapply sublist_NoDup; [exact Ha|apply sublist_delete].
    + intros h c0 c' Hc0 Hc'. eapply Hta; [done|]. by eapply list_elem_of_delete_inv.
  - split; simpl; [done| |done| | |done].
    + intros c' Hc'. apply Har. by eapply list_elem_of_delete_inv.
    + rewrite list_fmap_delete. eapply sublist_NoDup; [exact Ha|apply sublist_delete].
    + intros h c0 c' Hc0 Hc'. eapply Hta; [done|]. by eapply list_elem_of_delete_inv.
Qed.

Lemma closures_once_run (rnd : list string) (es : list Event) (w : World) :
  NoDup rnd → run es (initial rnd) = Some w → closures_once w.
Proof.
  intros Hnd. apply (run_transitions closures_once).
  - intros e w0 w1. apply closures_once_transition.
  - split; simpl; try done.
    + intros c Hc. by apply elem_of_nil in Hc.
    + apply NoDup_nil_2.
Qed.

Lemma elem_of_delete_other {A : Type} (l : list A) (n : nat) (x y : A) :
  l !! n = Some x → x ≠ y → y ∈ l → y ∈ delete n l.
Proof.
  revert n. induction l as [|z l IH]; intros n Hn Hne Hy; [by apply elem_of_nil in Hy|].
  destruct n as [|n]; simpl in *.
  - simplify_eq. by apply elem_of_cons in Hy as [->|Hy].
  - apply elem_of_cons in Hy as [->|Hy]; [apply list_elem_of_here|].
    right. by eapply IH.
Qed.

Lemma pending_after_delete (t : Tracker) (n : nat) (job : Job) (id : string) :
  jobQueue t !! n = Some job → jobId job ≠ id → in_pending id t →
  id ∈ jobId <$> delete n (jobQueue t).
Proof.
  intros Hjob Hne Hin. rewrite list_fmap_delete.
  apply (elem_of_delete_other _ n (jobId job)); [|done..].
  by rewrite list_lookup_fmap, Hjob.
Qed.

(** An abandoned job stays abandoned through every event that is not a
    cancel request for its ID. *)
Lemma abandoned_transition (e : Event) (w w' : World) (id : string) :
  abandoned id w → transition e w w' →
  (∀ q, e = PostCancelJob q → param q ≠ id) →
  abandoned id w'.
Proof.
  intros [Hp Ht Ha Hr] Htrans Hcancel.
  destruct Htrans as [w|w|q w _|q w id' rest _ _ Hrandom|q w|q w _|q w n job _ Hjob Hjid
                   |handle c w Hc|k c c1 c2 c3 c4 w _ _|k c c1 c2 c3 c4 w images n job Hk _ Hjob Hjid];
    try done.
  - rewrite Hrandom in Hr. apply not_elem_of_cons in Hr as [Hne Hrest]. split; simpl.
    + unfold in_pending, pending_ids, push in *. simpl. rewrite fmap_app.
      apply elem_of_app. by left.
    + intros h c [[_ <-]|[_ Hc]]%lookup_insert_Some; [done|by eapply Ht].
    + done.
    + done.
  - specialize (Hcancel q eq_refl). split; simpl; try done.
    + unfold in_pending, pending_ids. simpl.
      apply (pending_after_delete _ n job); [done|congruence|done].
    + intros h c [_ Hc]%lookup_delete_Some. by eapply Ht.
  - split; simpl; try done.
    + intros h c' [_ Hc']%lookup_delete_Some. by eapply Ht.
    + unfold push. intros c' [Hin|Hin]%elem_of_app; [by apply Ha|].
      apply list_elem_of_singleton in Hin as ->. by eapply Ht.
  - split; simpl; try done.
    intros c' Hc'. apply Ha. by eapply list_elem_of_delete_inv.
  - assert (captured_jobId c ≠ id) as Hne.
    { apply Ha. by eapply list_elem_of_lookup_2. }
    split; simpl; try done.
    + unfold in_pending, pending_ids. simpl.
      apply (pending_after_delete _ n job); [done|congruence|done].
    + intros c' Hc'. apply Ha. by eapply list_elem_of_delete_inv.
Qed.

Lemma abandoned_run (es : list Event) (w w' : World) (id : string) :
  abandoned id w →
  (∀ q, PostCancelJob q ∈ es → param q ≠ id) →
  run es w = Some w' → abandoned id w'.
Proof.
  revert w. induction es as [|e es IH]; intros w Hab Hcancel Hrun; simpl in Hrun.
  - by simplify_eq.
  - destruct (step e w) as [[w1 r]|] eqn:He; [|done].
    apply (IH w1); [|intros q Hq; apply Hcancel; by right|done].
    eapply abandoned_transition; [done|by eapply step_transition|].
    intros q ->. apply Hcancel. apply list_elem_of_here.
Qed.

(** X12. As long as [generateJobId] does not repeat itself, a job whose
    generation fails is stuck: when one of the four calls throws while the
    job is pending, the job is still pending, and not completed, after every
    later sequence of requests, timeouts and generations that contains no
    cancel request for its ID. Nothing retries it and nothing removes it. *)
Theorem failed_job_stuck (rnd : list string) (es1 es2 : list Event) (w w' : World)
    (k : nat) (c : Closure) (c1 c2 c3 c4 c' : Gemini.Call) (e : string) :
  NoDup rnd →
  run es1 (initial rnd) = Some w →
  awaiting w !! k = Some c →
  in_pending (captured_jobId c) (tracker w) →
  c' ∈ [c1; c2; c3; c4] →
  Gemini.generateGeminiImage (captured_prompt c) c' = Throws e →
  (∀ q, PostCancelJob q ∈ es2 → param q ≠ captured_jobId c) →
  run (GenerationSettles k c1 c2 c3 c4 :: es2) w = Some w' →
  in_pending (captured_jobId c) (tracker w') ∧
  ¬ in_completed (captured_jobId c) (tracker w').
Proof.
  intros Hnd Hrun1 Hk Hin Hc' He Hcancel Hrun2.
  assert (generate_four (captured_prompt c) c1 c2 c3 c4 = None) as Hfour
    by (apply generate_four_rejected; eauto).
  destruct (closures_once_run rnd es1 w Hnd Hrun1) as [_ Har _ Ha Hta _].
  assert (ids_apart w) as Hinv.
  { eapply ids_apart_run; [|done]. by apply ids_apart_initial. }
  simpl in Hrun2. rewrite Hk in Hrun2. unfold timeout_callback in Hrun2.
  rewrite Hfour in Hrun2.
  assert (c ∈ awaiting w) as Hcin by (by eapply list_elem_of_lookup_2).
  assert (abandoned (captured_jobId c)
            (with_tracker (tracker w) (with_awaiting (delete k (awaiting w)) w))) as Hab.
  { split; simpl.
    - done.
    - intros h c0 Hc0 Heq. by apply (Hta h c0 c Hc0 Hcin).
    - intros c0 Hc0 Heq.
      apply (NoDup_delete_lookup (captured_jobId <$> awaiting w) k (captured_jobId c));
        [done|by rewrite list_lookup_fmap, Hk|].
      rewrite <- list_fmap_delete, <- Heq. apply list_elem_of_fmap. eauto.
    - by apply Har. }
  pose proof (abandoned_run es2 _ w' _ Hab Hcancel Hrun2) as [Hp _ _ _].
  split; [done|].
  assert (ids_apart w') as Hinv'.
  { eapply ids_apart_run; [|exact Hrun2].
    revert Hinv. by apply ids_apart_same. }
  destruct (ids_apart_exclusive w' (captured_jobId c) Hinv') as (Hpc & _ & _).
  intros Hcompleted. by apply Hpc.
Qed.

Lemma failed_job_stuck_witness :
  ∃ w w' : World,
    run [GetQueueImageGeneration (Some "cat"); TimeoutElapses 0] (initial Sample.ids)
      = Some w ∧
    run [ GenerationSettles 0 Sample.call Sample.call_rejected Sample.call Sample.call;
          PostPurchaseCredits; GetQueueImageGeneration (Some "dog"); TimeoutElapses 1;
          GenerationSettles 0 Sample.call Sample.call Sample.call Sample.call;
          PostCancelJob (Some "8k2j5h8d1m4") ] w = Some w' ∧
    in_pending "4fzyo82mvyr" (tracker w').
Proof.
  eexists.
  match goal with |- ∃ w', run ?es ?i = Some ?W ∧ _ =>
    let r := eval vm_compute in (run es i) in
    match r with Some ?v => unify W v end
  end.
  match goal with |- ∃ w', _ = Some ?W ∧ _ => set (w := W) end.
  match goal with |- ∃ w', _ ∧ run ?es w = _ ∧ _ =>
    destruct (run es w) as [w'|] eqn:Hrun; [|vm_compute in Hrun; discriminate Hrun]
  end.
  exists w'. split; [vm_compute; reflexivity|]. split; [reflexivity|].
  refine (proj1 (failed_job_stuck Sample.ids
            [GetQueueImageGeneration (Some "cat"); TimeoutElapses 0] _ w w' 0
            {| captured_jobId := "4fzyo82mvyr"; captured_prompt := "cat" |}
            Sample.call Sample.call_rejected Sample.call Sample.call
            Sample.call_rejected "No candidates returned from Gemini API"
            _ _ eq_refl _ _ eq_refl _ Hrun)).
  - apply (bool_decide_unpack _). vm_compute. reflexivity.
  - vm_compute. reflexivity.
  - apply list_elem_of_here.
  - right. apply list_elem_of_here.
  - intros q Hq. repeat (apply elem_of_cons in Hq as [Hq|Hq]; [by simplify_eq|]).
    by apply elem_of_nil in Hq.
Defined.

(** ** No job is lost *)

Lemma ids_tracked_transition (rnd : list string) (e : Event) (w w' : World) :
  ids_tracked rnd w → transition e w w' → ids_tracked rnd w'.
Proof.
  intros (issued & Hrnd & Hids) Htrans.
  destruct Htrans as [w|w|q w _|q w id rest _ _ Hrandom|q w|q w _|q w n job _ Hjob Hjid
                   |handle c w _|k c c1 c2 c3 c4 w _ _|k c c1 c2 c3 c4 w images n job _ _ Hjob Hjid];
    try (by exists issued).
  - exists (issued ++ [id]). split.
    { simpl. by rewrite <- app_assoc, Hrnd, Hrandom. }
    intros id'. rewrite elem_of_app, Hids, list_elem_of_singleton.
    unfold in_pending, pending_ids, in_completed, in_cancelled, push. simpl.
    rewrite fmap_app, elem_of_app. simpl. rewrite list_elem_of_singleton. tauto.
  - exists issued. split; [done|]. intros id'. rewrite Hids.
    pose proof (pending_lookup _ _ _ Hjob) as Hin. rewrite Hjid in Hin.
    unfold in_pending, pending_ids, in_completed, in_cancelled, cancelled_ids, push in *.
    simpl. rewrite fmap_app, elem_of_app. simpl. rewrite list_elem_of_singleton.
    split.
    + intros [Hp|[Hc|Hx]]; [|tauto..].
      destruct (decide (id' = param q)) as [->|Hne]; [tauto|]. left.
      apply (pending_after_delete _ n job); [done|congruence|done].
    + intros [Hp|[Hc|[Hx| ->]]]; [|tauto..].
      left. rewrite list_fmap_delete in Hp. by eapply list_elem_of_delete_inv.
  - exists issued. split; [done|]. intros id'. rewrite Hids.
    pose proof (pending_lookup _ _ _ Hjob) as Hin. rewrite Hjid in Hin.
    unfold in_pending, pending_ids, in_completed, in_cancelled, cancelled_ids in *. simpl.
    rewrite lookup_insert_is_Some'. split.
    + intros [Hp|[Hc|Hx]]; [|tauto..].
      destruct (decide (captured_jobId c = id')) as [Heq|Hne]; [tauto|]. left.
      apply (pending_after_delete _ n job); [done|congruence|done].
    + intros [Hp|[[<-|Hc]|Hx]]; [|tauto..].
      left. rewrite list_fmap_delete in Hp. by eapply list_elem_of_delete_inv.
Qed.

(** X15. No job is lost and none is made up: in every state of the router,
    the IDs that [generateJobId] has returned so far are exactly the IDs that
    are pending, completed or cancelled. *)
Theorem issued_ids_tracked (rnd : list string) (es : list Event) (w : World) :
  run es (initial rnd) = Some w →
  ∃ issued : list string,
    rnd = issued ++ random w ∧
    ∀ id, id ∈ issued ↔
          in_pending id (tracker w) ∨ in_completed id (tracker w)
          ∨ in_cancelled id (tracker w).
Proof.
  apply (run_transitions (ids_tracked rnd)).
  - intros e w0 w1. apply ids_tracked_transition.
  - exists []. split; [done|]. intros id. split.
    + intros Hin. by apply elem_of_nil in Hin.
    + unfold in_pending, in_completed, in_cancelled. simpl.
      intros [Hin|[Hin|Hin]].
      * by apply elem_of_nil in Hin.
      * by apply lookup_empty_is_Some in Hin.
      * by apply elem_of_nil in Hin.
Qed.

Lemma issued_ids_tracked_witness :
  ∃ (w : World) (issued : list string),
    run (Sample.complete_and_cancel ++ Sample.one_more_job) (initial Sample.ids) = Some w ∧
    Sample.ids = issued ++ random w ∧ "4fzyo82mvyr" ∈ issued.
Proof.
  eexists.
  match goal with |- ∃ i, run ?es ?i0 = Some ?W ∧ _ =>
    let r := eval vm_compute in (run es i0) in
    match r with Some ?v => unify W v end
  end.
  match goal with |- ∃ i, _ = Some ?W ∧ _ => set (w := W) end.
  destruct (issued_ids_tracked Sample.ids
              (Sample.complete_and_cancel ++ Sample.one_more_job) w)
    as (issued & Hrnd & Hids); [vm_compute; reflexivity|].
  exists issued. split; [vm_compute; reflexivity|]. split; [exact Hrnd|].
  apply Hids. right. left. vm_compute. eauto.
Defined.
